(** * aggregate_results.py: result locator, statistics aggregator and driver

    A shallow embedding of [src/aggregate_results.py] (vanilla Gaussian
    Splatting evaluation).  Python values are modelled by an inductive type
    of JSON-shaped values, dicts by association lists kept in insertion
    order, floats by IEEE-754 binary64 numbers ([PrimFloat]), uncaught
    exceptions by an error monad, and the file system by a tree of nodes. *)

From Stdlib Require Import ZArith List String Ascii Bool Lia.
From Stdlib Require Import Sorting.Permutation Sorting.Sorted.
From Stdlib Require Import Floats.PrimFloat Floats.SpecFloat Floats.FloatOps.
From Stdlib Require Import DecimalString DecimalNat.
Import ListNotations.

Set Warnings "-register-all".

Local Open Scope string_scope.
Local Open Scope list_scope.

(** ** Python strings

    A [str] is modelled by [string]; each [ascii] stands for the code point
    of the same number (U+0000 to U+00FF). *)

Module PyStr.

(** [s.startswith(p)] *)
Fixpoint startswith (p s : string) : bool :=
  match p, s with
  | EmptyString, _ => true
  | String _ _, EmptyString => false
  | String a p', String b s' => Ascii.eqb a b && startswith p' s'
  end.

(** [sep in s] *)
Fixpoint contains (sep s : string) : bool :=
  startswith sep s ||
  match s with
  | EmptyString => false
  | String _ s' => contains sep s'
  end.

(** [n] characters dropped from the front: [s[n:]] *)
Fixpoint drop (n : nat) (s : string) : string :=
  match n, s with
  | O, _ => s
  | S _, EmptyString => EmptyString
  | S n', String _ s' => drop n' s'
  end.

(** [s.partition(sep)] when [sep] occurs: the text before the first
    occurrence and the text after it. *)
Fixpoint partition (sep s : string) : option (string * string) :=
  if startswith sep s then Some (EmptyString, drop (String.length sep) s)
  else match s with
       | EmptyString => None
       | String c s' =>
           match partition sep s' with
           | Some (b, a) => Some (String c b, a)
           | None => None
           end
       end.

(** [s.split(sep)] for a non-empty [sep]: cut at the first occurrence and
    go on in the rest.  The fuel counts the characters still to scan. *)
Fixpoint split_fuel (fuel : nat) (sep s : string) : list string :=
  match partition sep s with
  | None => [s]
  | Some (b, a) =>
      match fuel with
      | O => [b; a]
      | S fuel' => b :: split_fuel fuel' sep a
      end
  end.

Definition split (sep s : string) : list string :=
  split_fuel (String.length s) sep s.

(** *** [int(s)] in base 10

    CPython first maps Unicode white space above U+007F to a blank (in this
    alphabet U+0085 and U+00A0), then reads: blanks, an optional sign,
    digits that may be separated by single underscores, blanks, the end. *)

Definition code (c : ascii) : N := N_of_ascii c.

Definition is_space (c : ascii) : bool :=
  let n := code c in
  ((9 <=? n) && (n <=? 13) || (n =? 32) || (n =? 133) || (n =? 160))%N.

Definition digit_val (c : ascii) : option Z :=
  let n := code c in
  if ((48 <=? n) && (n <=? 57))%N then Some (Z.of_N n - 48)%Z else None.

Fixpoint all_space (s : string) : bool :=
  match s with
  | EmptyString => true
  | String c s' => is_space c && all_space s'
  end.

Fixpoint lstrip (s : string) : string :=
  match s with
  | EmptyString => EmptyString
  | String c s' => if is_space c then lstrip s' else s
  end.

(** The digits after a first digit of accumulated value [acc]. *)
Fixpoint int_digits (acc : Z) (s : string) : option Z :=
  match s with
  | EmptyString => Some acc
  | String c s' =>
      match digit_val c with
      | Some d => int_digits (10 * acc + d) s'
      | None =>
          if Ascii.eqb c "_" then
            match s' with
            | String c' s'' =>
                match digit_val c' with
                | Some d => int_digits (10 * acc + d) s''
                | None => None
                end
            | EmptyString => None
            end
          else if all_space s then Some acc else None
      end
  end.

Definition int_unsigned (s : string) : option Z :=
  match s with
  | String c s' =>
      match digit_val c with
      | Some d => int_digits d s'
      | None => None
      end
  | EmptyString => None
  end.

(** [int(s)]: [None] stands for [ValueError]. *)
Definition int (s : string) : option Z :=
  match lstrip s with
  | String c s' =>
      if Ascii.eqb c "-" then option_map Z.opp (int_unsigned s')
      else if Ascii.eqb c "+" then int_unsigned s'
      else int_unsigned (String c s')
  | EmptyString => None
  end.

(** The characters [int] lets through. *)
Definition int_char (c : ascii) : bool :=
  is_space c || match digit_val c with Some _ => true | None => false end ||
  Ascii.eqb c "_" || Ascii.eqb c "-" || Ascii.eqb c "+".

Fixpoint all_int_chars (s : string) : bool :=
  match s with
  | EmptyString => true
  | String c s' => int_char c && all_int_chars s'
  end.

End PyStr.

(** ** [extract_scene_and_case] *)

Definition extract_scene_and_case (dirname : string) : option (string * Z) :=
  match PyStr.split "_case" dirname with
  | [scene_name; suffix] =>
      match PyStr.int suffix with
      | Some case_id => Some (scene_name, case_id)
      | None => None
      end
  | _ => None
  end.

(** ** Python values, exceptions and dicts *)

(** What [json.load] can return.  JSON numbers without fraction or exponent
    load as [int], the others (and [NaN], [Infinity]) as [float]. *)
Inductive pyval : Type :=
| PNone
| PBool (b : bool)
| PInt (z : Z)
| PFloat (f : float)
| PStr (s : string)
| PList (l : list pyval)
| PDict (d : list (string * pyval)).

(** The exceptions that leave a function of this program uncaught. *)
Inductive exn : Type :=
| AttributeError
| OverflowError
| FileExistsError
| NotADirectoryError
| IsADirectoryError.

Inductive result (A : Type) : Type :=
| Ok (a : A)
| Raise (e : exn).
Arguments Ok {A} a.
Arguments Raise {A} e.

Definition bind {A B} (r : result A) (k : A -> result B) : result B :=
  match r with
  | Ok a => k a
  | Raise e => Raise e
  end.

Notation "x <- r ;; k" := (bind r (fun x => k))
  (at level 61, r at next level, right associativity).

(** A [for] loop whose body may raise: the state is threaded through the
    items in order and the first exception ends the loop. *)
Fixpoint for_each {A S} (body : S -> A -> result S) (items : list A) (s : S)
  : result S :=
  match items with
  | [] => Ok s
  | x :: rest => s' <- body s x ;; for_each body rest s'
  end.

(** Keys of the dicts of this program: [str] and [int]. *)
Class PyKey (K : Type) := {
  key_eqb : K -> K -> bool;
  key_eqb_spec : forall a b, reflect (a = b) (key_eqb a b)
}.

#[export] Instance string_key : PyKey string :=
  {| key_eqb := String.eqb; key_eqb_spec := String.eqb_spec |}.

#[export] Instance Z_key : PyKey Z :=
  {| key_eqb := Z.eqb; key_eqb_spec := Z.eqb_spec |}.

(** A [dict] keeps its items in insertion order. *)
Abbreviation dict K V := (list (K * V)) (only parsing).

Section Dict.
Context {K V : Type} `{PyKey K}.

(** [d.get(k)] *)
Fixpoint dict_get (k : K) (d : dict K V) : option V :=
  match d with
  | [] => None
  | (k', v) :: d' => if key_eqb k k' then Some v else dict_get k d'
  end.

(** [d[k] = v]: an existing key keeps its place, a new one goes last. *)
Fixpoint dict_set (k : K) (v : V) (d : dict K V) : dict K V :=
  match d with
  | [] => [(k, v)]
  | (k', v') :: d' =>
      if key_eqb k k' then (k', v) :: d' else (k', v') :: dict_set k v d'
  end.

(** [d[k]] of a [defaultdict] whose factory gives [dflt]; the caller
    stores the value back. *)
Definition dict_get_default (dflt : V) (k : K) (d : dict K V) : V :=
  match dict_get k d with
  | Some v => v
  | None => dflt
  end.

Definition dict_keys (d : dict K V) : list K := map fst d.
End Dict.

(** [sorted(l)]: a stable sort that only asks [<] of its elements. *)
Section Sorted.
Context {A : Type} (lt : A -> A -> bool).

Fixpoint sorted_insert (x : A) (l : list A) : list A :=
  match l with
  | [] => [x]
  | y :: l' => if lt y x then y :: sorted_insert x l' else x :: y :: l'
  end.

Fixpoint sorted (l : list A) : list A :=
  match l with
  | [] => []
  | x :: l' => sorted_insert x (sorted l')
  end.
End Sorted.

(** ** The file system

    A directory lists its entries by name.  A regular file is described by
    what [json.load] makes of it: a value, or an exception. *)

Inductive content : Type :=
| Parsed (v : pyval)
| Unparsable.

Inductive node : Type :=
| NFile (c : content)
| NDir (entries : list (string * node)).

Definition path : Type := list string.

Definition entries_of (n : node) : list (string * node) :=
  match n with
  | NDir es => es
  | NFile _ => []
  end.

Fixpoint lookup_path (p : path) (n : node) : option node :=
  match p with
  | [] => Some n
  | c :: p' =>
      match n with
      | NDir es =>
          match dict_get c es with
          | Some child => lookup_path p' child
          | None => None
          end
      | NFile _ => None
      end
  end.

Definition node_is_dir (n : node) : bool :=
  match n with
  | NDir _ => true
  | NFile _ => false
  end.

(** [p.is_dir()] *)
Definition is_dir (p : path) (fs : node) : bool :=
  match lookup_path p fs with
  | Some n => node_is_dir n
  | None => false
  end.

(** The directories [mkdir(parents=True)] creates below a missing entry. *)
Fixpoint fresh_dirs (p : path) : node :=
  match p with
  | [] => NDir []
  | c :: p' => NDir [(c, fresh_dirs p')]
  end.

(** [p.mkdir(parents=True, exist_ok=True)] *)
Fixpoint mkdir_parents_exist_ok (p : path) (fs : node) : result node :=
  match p with
  | [] =>
      match fs with
      | NDir _ => Ok fs
      | NFile _ => Raise FileExistsError
      end
  | c :: p' =>
      match fs with
      | NFile _ => Raise NotADirectoryError
      | NDir es =>
          match dict_get c es with
          | Some child =>
              child' <- mkdir_parents_exist_ok p' child ;;
              Ok (NDir (dict_set c child' es))
          | None => Ok (NDir (es ++ [(c, fresh_dirs p')]))
          end
      end
  end.

(** [open(p, 'w')]: refused when [p] names a directory. *)
Definition open_for_writing (p : path) (fs : node) : result unit :=
  match lookup_path p fs with
  | Some (NDir _) => Raise IsADirectoryError
  | _ => Ok tt
  end.

(** [str(p)]: the path without components prints as a dot. *)
Definition path_str (p : path) : string :=
  match p with
  | [] => "."
  | _ => String.concat "/" p
  end.

(** ** Console output (the diagnostics; banners and tables are left out) *)

Inductive event : Type :=
| FoundDirs (n : nat)
| WarnCouldNotLoad (dirname : string)
| MissingResults (dirname : string)
| MissingTally (n : nat)
| ErrorNotFound (dir : string)
| ErrorNoResults
| SavedJson (p : string)
| SavedCsv (p : string)
| Complete.

(** ** [load_results_json] *)

(** The file at [json_path] exists as [n]; every exception of [open] and
    [json.load] is caught, reported and turned into [None]. *)
Definition load_results_json (n : node) : pyval * bool :=
  match n with
  | NFile (Parsed v) => (v, false)
  | NFile Unparsable => (PNone, true)
  | NDir _ => (PNone, true)
  end.

Definition is_None (v : pyval) : bool :=
  match v with
  | PNone => true
  | _ => false
  end.

(** ** [collect_all_results] *)

Abbreviation collection := (dict string (dict Z pyval)) (only parsing).

Record collect_state : Type := {
  all_results : collection;
  missing_count : nat;
  printed : list event
}.

Definition path_lt (a b : string * node) : bool := String.ltb (fst a) (fst b).

(** The body of the loop over [scene_case_dirs]. *)
Definition collect_step (st : collect_state) (scene_case_dir : string * node)
  : collect_state :=
  let (name, d) := scene_case_dir in
  match extract_scene_and_case name with
  | None => st
  | Some (scene_name, case_id) =>
      match dict_get "results.json" (entries_of d) with
      | Some f =>
          let (results, warned) := load_results_json f in
          let out :=
            if warned then st.(printed) ++ [WarnCouldNotLoad name]
            else st.(printed) in
          if is_None results then
            {| all_results := st.(all_results);
               missing_count := st.(missing_count);
               printed := out |}
          else
            let cases := dict_get_default [] scene_name st.(all_results) in
            {| all_results :=
                 dict_set scene_name (dict_set case_id results cases)
                          st.(all_results);
               missing_count := st.(missing_count);
               printed := out |}
      | None =>
          {| all_results := st.(all_results);
             missing_count := S st.(missing_count);
             printed := st.(printed) ++ [MissingResults name] |}
      end
  end.

(** [listing] is [results_dir.iterdir()], in the order the operating system
    yields the entries. *)
Definition scene_case_dirs (listing : list (string * node))
  : list (string * node) :=
  sorted path_lt
    (filter (fun d => node_is_dir (snd d) && PyStr.contains "_case" (fst d))
            listing).

Definition collect_all_results (listing : list (string * node))
  : collection * list event :=
  let dirs := scene_case_dirs listing in
  let st := fold_left collect_step dirs
              {| all_results := []; missing_count := 0;
                 printed := [FoundDirs (List.length dirs)] |} in
  (st.(all_results),
   if (0 <? st.(missing_count))%nat
   then st.(printed) ++ [MissingTally st.(missing_count)]
   else st.(printed)).

(** ** The numeric library

    [np.array] infers the element type of a list of Python scalars; the
    statistics are then computed in float64. *)

Inductive dtype : Type := DBool | DInt64 | DUInt64 | DFloat64 | DObject.

Definition scalar_dtype (v : pyval) : dtype :=
  match v with
  | PBool _ => DBool
  | PInt z =>
      if ((- 2 ^ 63 <=? z) && (z <? 2 ^ 63))%Z then DInt64
      else if ((0 <=? z) && (z <? 2 ^ 64))%Z then DUInt64
      else DObject
  | PFloat _ => DFloat64
  | _ => DObject
  end.

Definition promote (a b : dtype) : dtype :=
  match a, b with
  | DObject, _ | _, DObject => DObject
  | DFloat64, _ | _, DFloat64 => DFloat64
  | DBool, d | d, DBool => d
  | DInt64, DInt64 => DInt64
  | DUInt64, DUInt64 => DUInt64
  | DInt64, DUInt64 | DUInt64, DInt64 => DFloat64
  end.

Record ndarray : Type := {
  arr_dtype : dtype;
  arr_items : list pyval
}.

(** [np.array(values)] for a non-empty list of [bool], [int] and [float]. *)
Definition np_array (values : list pyval) : ndarray :=
  {| arr_dtype :=
       match values with
       | [] => DFloat64
       | v :: rest =>
           fold_left (fun d x => promote d (scalar_dtype x)) rest
                     (scalar_dtype v)
       end;
     arr_items := values |}.

(** The float64 nearest to an integer (ties to even). *)
Definition float_of_Z (z : Z) : float :=
  SF2Prim (binary_normalize prec emax z 0 false).

Definition float_of_nat (n : nat) : float := float_of_Z (Z.of_nat n).

Definition to_float64 (v : pyval) : float :=
  match v with
  | PBool true => 1%float
  | PBool false => 0%float
  | PInt z => float_of_Z z
  | PFloat f => f
  | _ => nan
  end.

Definition to_int (v : pyval) : pyval :=
  match v with
  | PBool true => PInt 1
  | PBool false => PInt 0
  | _ => v
  end.

(** [a.tolist()] *)
Definition tolist (a : ndarray) : list pyval :=
  match a.(arr_dtype) with
  | DBool | DObject => a.(arr_items)
  | DInt64 | DUInt64 => map to_int a.(arr_items)
  | DFloat64 => map (fun v => PFloat (to_float64 v)) a.(arr_items)
  end.

(** An integer too large for any finite float: Python raises
    [OverflowError] when it meets one in float arithmetic. *)
Definition overflows (v : pyval) : bool :=
  match v with
  | PInt z => PrimFloat.eqb (PrimFloat.abs (float_of_Z z)) infinity
  | _ => false
  end.

(** The elements as float64, which is how numpy reduces an array of dtype
    bool, int64, uint64 or float64.  An array of dtype object (some integer
    beyond 64 bits) is reduced by Python's own arithmetic on the objects:
    integers are added exactly and rounded afterwards, and an intermediate
    result without a finite float raises.  Of that the model keeps only the
    exception for an element without a finite float, and is an
    approximation otherwise; the properties that speak of the numbers of a
    block, or of the absence of an exception, are stated for sequences
    whose integers are native ([native_numbers] below). *)
Definition as_float64 (a : ndarray) : result (list float) :=
  match a.(arr_dtype) with
  | DObject =>
      if existsb overflows a.(arr_items) then Raise OverflowError
      else Ok (map to_float64 a.(arr_items))
  | _ => Ok (map to_float64 a.(arr_items))
  end.

(** [np.minimum] and [np.maximum] on two floats, as numpy's scalar loop has
    them: a NaN on the left stays.  Between zeros of opposite sign a
    vectorised loop may return the other one. *)
Definition np_minimum (a b : float) : float :=
  if PrimFloat.leb a b || PrimFloat.is_nan a then a else b.

Definition np_maximum (a b : float) : float :=
  if PrimFloat.leb b a || PrimFloat.is_nan a then a else b.

(** [np.min] and [np.max] of a non-empty sequence. *)
Definition np_min (xs : list float) : float :=
  match xs with
  | [] => nan
  | x :: rest => fold_left np_minimum rest x
  end.

Definition np_max (xs : list float) : float :=
  match xs with
  | [] => nan
  | x :: rest => fold_left np_maximum rest x
  end.

(** The sum of a sequence added from left to right, as numpy adds fewer than
    eight elements. *)
Definition sequential_sum (xs : list float) : float :=
  fold_left PrimFloat.add xs 0%float.

(** One [StatBlock]: [values] is kept per scene and dropped overall. *)
Record stat_block : Type := {
  sb_mean : float;
  sb_std : float;
  sb_min : float;
  sb_max : float;
  sb_count : nat;
  sb_values : option (list pyval)
}.

Abbreviation stats_dict := (dict string (dict string stat_block)) (only parsing).

Section Aggregator.

(** [np.add.reduce] on float64: the sum of a sequence in the order of
    association numpy chooses for its length. *)
Variable add_reduce : list float -> float.

(** [np.mean(xs)] *)
Definition np_mean (xs : list float) : float :=
  (add_reduce xs / float_of_nat (List.length xs))%float.

(** [np.var(xs, ddof=ddof)]: the squared deviations from the mean are
    summed and divided by [max(N - ddof, 0)]. *)
Definition np_var (ddof : nat) (xs : list float) : float :=
  let arrmean := np_mean xs in
  let x := map (fun a => ((a - arrmean) * (a - arrmean))%float) xs in
  (add_reduce x / float_of_nat (List.length xs - ddof))%float.

(** [np.std(xs, ddof=ddof)] *)
Definition np_std (ddof : nat) (xs : list float) : float :=
  PrimFloat.sqrt (np_var ddof xs).

(** *** [compute_scene_statistics] *)

(** [value.items()] *)
Definition items (v : pyval) : result (list (string * pyval)) :=
  match v with
  | PDict d => Ok d
  | _ => Raise AttributeError
  end.

(** [isinstance(value, (int, float))]: [bool] is a subclass of [int]. *)
Definition isinstance_int_float (v : pyval) : bool :=
  match v with
  | PBool _ | PInt _ | PFloat _ => true
  | _ => false
  end.

(** [m[iteration_name][metric_name].append(value)] on the nested
    [defaultdict]. *)
Definition append_metric {V} (iteration_name metric_name : string) (value : V)
    (m : dict string (dict string (list V)))
  : dict string (dict string (list V)) :=
  let metrics := dict_get_default [] iteration_name m in
  let values := dict_get_default [] metric_name metrics in
  dict_set iteration_name (dict_set metric_name (values ++ [value]) metrics) m.

Definition gather_metrics (iteration_name : string)
    (m : dict string (dict string (list pyval)))
    (kv : string * pyval) : dict string (dict string (list pyval)) :=
  let (metric_name, value) := kv in
  if isinstance_int_float value
  then append_metric iteration_name metric_name value m
  else m.

Definition gather_iteration (m : dict string (dict string (list pyval)))
    (kv : string * pyval) : result (dict string (dict string (list pyval))) :=
  let (iteration_name, metrics) := kv in
  its <- items metrics ;;
  Ok (fold_left (gather_metrics iteration_name) its m).

Definition gather_case (m : dict string (dict string (list pyval)))
    (kv : Z * pyval) : result (dict string (dict string (list pyval))) :=
  let (_, case_data) := kv in
  its <- items case_data ;;
  for_each gather_iteration its m.

(** The dict literal of the second loop. *)
Definition scene_block (values : list pyval) : result stat_block :=
  let values := np_array values in
  xs <- as_float64 values ;;
  Ok {| sb_mean := np_mean xs;
        sb_std := np_std 0 xs;
        sb_min := np_min xs;
        sb_max := np_max xs;
        sb_count := List.length values.(arr_items);
        sb_values := Some (tolist values) |}.

Definition scene_metric (acc : dict string stat_block)
    (kv : string * list pyval) : result (dict string stat_block) :=
  let (metric_name, values) := kv in
  if (0 <? List.length values)%nat then
    blk <- scene_block values ;;
    Ok (dict_set metric_name blk acc)
  else Ok acc.

Definition scene_iteration (stats : stats_dict)
    (kv : string * dict string (list pyval)) : result stats_dict :=
  let (iteration_name, metrics) := kv in
  inner <- for_each scene_metric metrics [] ;;
  Ok (dict_set iteration_name inner stats).

Definition compute_scene_statistics (scene_results : dict Z pyval)
  : result stats_dict :=
  iteration_metrics <- for_each gather_case scene_results [] ;;
  for_each scene_iteration iteration_metrics [].

(** *** [compute_overall_statistics] *)

Definition gather_means (iteration_name : string)
    (m : dict string (dict string (list float)))
    (kv : string * stat_block) : dict string (dict string (list float)) :=
  let (metric_name, stats) := kv in
  append_metric iteration_name metric_name stats.(sb_mean) m.

Definition gather_scene (m : dict string (dict string (list float)))
    (kv : string * stats_dict) : dict string (dict string (list float)) :=
  let (_, scene_stats) := kv in
  fold_left (fun m (it : string * dict string stat_block) =>
               fold_left (gather_means (fst it)) (snd it) m)
            scene_stats m.

Definition overall_block (values : list float) : stat_block :=
  {| sb_mean := np_mean values;
     sb_std := np_std 0 values;
     sb_min := np_min values;
     sb_max := np_max values;
     sb_count := List.length values;
     sb_values := None |}.

Definition overall_metric (acc : dict string stat_block)
    (kv : string * list float) : dict string stat_block :=
  let (metric_name, values) := kv in
  if (0 <? List.length values)%nat
  then dict_set metric_name (overall_block values) acc
  else acc.

Definition overall_iteration (stats : stats_dict)
    (kv : string * dict string (list float)) : stats_dict :=
  let (iteration_name, metrics) := kv in
  dict_set iteration_name (fold_left overall_metric metrics []) stats.

Definition compute_overall_statistics
    (all_scene_stats : dict string stats_dict) : stats_dict :=
  let iteration_overall := fold_left gather_scene all_scene_stats [] in
  fold_left overall_iteration iteration_overall [].

End Aggregator.

(** ** The report renderer and [main] *)

Record metadata : Type := {
  results_directory : string;
  num_scenes : nat;
  num_cases : nat;
  scene_list : list string;
  note : string
}.

(** The object [save_summary_json] hands to [json.dump]. *)
Record summary : Type := {
  sum_metadata : metadata;
  overall_statistics : stats_dict;
  per_scene_statistics : dict string stats_dict
}.

(** One row [save_csv] hands to the csv writer; the floats are printed with
    six decimals. *)
Record csv_row : Type := {
  row_iteration : string;
  row_metric : string;
  row_mean : float;
  row_std : float;
  row_min : float;
  row_max : float;
  row_count : nat
}.

Inductive artifact : Type :=
| JsonDocument (s : summary)
| CsvTable (rows : list csv_row).

Inductive format : Type := Json | Csv.

Definition format_eqb (a b : format) : bool :=
  match a, b with
  | Json, Json | Csv, Csv => true
  | _, _ => false
  end.

Record arguments : Type := {
  arg_results_dir : path;
  arg_output_dir : option path;
  arg_formats : list format
}.

(** What a run leaves behind: the exit status of the process, the exception
    that ended it if one did, the diagnostics printed, the file system after
    [mkdir], and the files written, in order. *)
Record outcome : Type := {
  exit_status : Z;
  uncaught : option exn;
  stdout : list event;
  fs_after : node;
  written : list (path * artifact)
}.

Definition key_lt {V} (a b : string * V) : bool := String.ltb (fst a) (fst b).

(** The rows of [save_csv]. *)
Definition csv_rows (overall_stats : stats_dict) : list csv_row :=
  flat_map
    (fun it : string * dict string stat_block =>
       map (fun m : string * stat_block =>
              {| row_iteration := fst it;
                 row_metric := fst m;
                 row_mean := (snd m).(sb_mean);
                 row_std := (snd m).(sb_std);
                 row_min := (snd m).(sb_min);
                 row_max := (snd m).(sb_max);
                 row_count := (snd m).(sb_count) |})
           (sorted key_lt (snd it)))
    (sorted key_lt overall_stats).

Definition the_note : string :=
  "Vanilla Gaussian Splatting - RGB metrics only (PSNR, SSIM, LPIPS)".

Section Main.

Variable add_reduce : list float -> float.

(** The order in which the operating system yields the entries of a
    directory to [iterdir]. *)
Variable readdir : list (string * node) -> list (string * node).

(** [results_dir.iterdir()] *)
Definition iterdir (p : path) (fs : node) : list (string * node) :=
  match lookup_path p fs with
  | Some n => readdir (entries_of n)
  | None => []
  end.

(** A process ended by an uncaught exception exits with status 1. *)
Definition crashed (e : exn) (out : list event) (fs : node)
    (files : list (path * artifact)) : outcome :=
  {| exit_status := 1; uncaught := Some e; stdout := out;
     fs_after := fs; written := files |}.

(** [sys.exit(code)] and the normal end of the script. *)
Definition exited (code : Z) (out : list event) (fs : node)
    (files : list (path * artifact)) : outcome :=
  {| exit_status := code; uncaught := None; stdout := out;
     fs_after := fs; written := files |}.

(** The loop of [main] that fills [scene_stats]. *)
Definition scene_stats_step (scene_stats : dict string stats_dict)
    (kv : string * dict Z pyval) : result (dict string stats_dict) :=
  let (scene_name, scene_results) := kv in
  st <- compute_scene_statistics add_reduce scene_results ;;
  Ok (dict_set scene_name st scene_stats).

Definition main (args : arguments) (fs : node) : outcome :=
  let results_dir := args.(arg_results_dir) in
  let output_dir :=
    match args.(arg_output_dir) with
    | Some o => o
    | None => results_dir
    end in
  match mkdir_parents_exist_ok output_dir fs with
  | Raise e => crashed e [] fs []
  | Ok fs1 =>
      if negb (is_dir results_dir fs1) then
        exited 1 [ErrorNotFound (path_str results_dir)] fs1 []
      else
        let (all_results, out) :=
          collect_all_results (iterdir results_dir fs1) in
        match all_results with
        | [] => exited 1 (out ++ [ErrorNoResults]) fs1 []
        | _ :: _ =>
            let n_scenes := List.length all_results in
            let n_cases :=
              fold_left (fun n (kv : string * dict Z pyval) =>
                           (n + List.length (snd kv))%nat)
                        all_results 0%nat in
            match for_each scene_stats_step all_results [] with
            | Raise e => crashed e out fs1 []
            | Ok scene_stats =>
                let overall_stats :=
                  compute_overall_statistics add_reduce scene_stats in
                let meta :=
                  {| results_directory := path_str results_dir;
                     num_scenes := n_scenes;
                     num_cases := n_cases;
                     scene_list := sorted String.ltb (dict_keys all_results);
                     note := the_note |} in
                let json_path := output_dir ++ ["aggregate_results.json"] in
                let csv_path := output_dir ++ ["aggregate_results.csv"] in
                let doc :=
                  JsonDocument
                    {| sum_metadata := meta;
                       overall_statistics := overall_stats;
                       per_scene_statistics := scene_stats |} in
                let want_json := existsb (format_eqb Json) args.(arg_formats) in
                let want_csv := existsb (format_eqb Csv) args.(arg_formats) in
                match
                  (if want_json then
                     _ <- open_for_writing json_path fs1 ;;
                     Ok (out ++ [SavedJson (path_str json_path)],
                         [(json_path, doc)])
                   else Ok (out, []))
                with
                | Raise e => crashed e out fs1 []
                | Ok (out1, files1) =>
                    match
                      (if want_csv then
                         _ <- open_for_writing csv_path fs1 ;;
                         Ok (out1 ++ [SavedCsv (path_str csv_path)],
                             files1 ++
                               [(csv_path, CsvTable (csv_rows overall_stats))])
                       else Ok (out1, files1))
                    with
                    | Raise e => crashed e out1 fs1 files1
                    | Ok (out2, files2) =>
                        exited 0 (out2 ++ [Complete]) fs1 files2
                    end
                end
            end
        end
  end.

End Main.

(** ** Scenarios of the specification as data *)

Definition psnr_unit (x : float) : pyval :=
  PDict [("ours_7000", PDict [("PSNR", PFloat x)])].

Definition results_file (v : pyval) : node :=
  NDir [("results.json", NFile (Parsed v))].

(** Scenario A: [sceneA_case0] and [sceneA_case1]. *)
Definition scenario_A : list (string * node) :=
  [("sceneA_case1", results_file (psnr_unit 22));
   ("sceneA_case0", results_file (psnr_unit 20))].

(** Scenario B: two groups of one sub-unit each. *)
Definition scenario_B : list (string * node) :=
  [("sceneA_case0", results_file (psnr_unit 20));
   ("sceneB_case0", results_file (psnr_unit 30))].

(** [d[a][b]], if both keys are present. *)
Definition get2 {V} (a b : string) (d : dict string (dict string V)) : option V :=
  match dict_get a d with
  | Some inner => dict_get b inner
  | None => None
  end.

(** ** Vocabulary of the properties *)

(** The unit a directory of [scene_case_dirs] contributes: its group key,
    its sub-unit id and the value loaded from its [results.json]. *)
Definition unit_of (d : string * node) : option (string * Z * pyval) :=
  match extract_scene_and_case (fst d) with
  | Some (g, c) =>
      match dict_get "results.json" (entries_of (snd d)) with
      | Some f =>
          let v := fst (load_results_json f) in
          if is_None v then None else Some (g, c, v)
      | None => None
      end
  | None => None
  end.

(** [all_results[g][c]], if present. *)
Definition collection_get (g : string) (c : Z) (coll : collection)
  : option pyval :=
  match dict_get g coll with
  | Some cases => dict_get c cases
  | None => None
  end.

(** The last unit of key [(g, c)] in a list of directories. *)
Definition last_unit (g : string) (c : Z) (dirs : list (string * node))
  (before : option pyval) : option pyval :=
  fold_left
    (fun acc d =>
       match unit_of d with
       | Some (g', c', v) =>
           if String.eqb g' g && Z.eqb c' c then Some v else acc
       | None => acc
       end)
    dirs before.

(** Every unit of the collection was loaded from a directory of the list. *)
Definition from_units (dirs : list (string * node)) (coll : collection) : Prop :=
  forall g cases c v,
    In (g, cases) coll -> In (c, v) cases ->
    exists d, In d dirs /\ unit_of d = Some (g, c, v).

(** The sequence stored under [(label, metric)], empty when there is none. *)
Definition values_at {V} (label metric : string)
    (m : dict string (dict string (list V))) : list V :=
  match get2 label metric m with
  | Some vs => vs
  | None => []
  end.

(** Keys are unique and no stored sequence is empty. *)
Definition wf_metrics {V} (m : dict string (dict string (list V))) : Prop :=
  NoDup (dict_keys m) /\
  forall label inner, In (label, inner) m ->
    NoDup (dict_keys inner) /\
    forall metric vs, In (metric, vs) inner -> vs <> [].

(** The values one [metrics] mapping reports for [metric] that pass the type
    filter. *)
Definition metric_values (metric : string) (metrics : pyval) : list pyval :=
  match metrics with
  | PDict mits =>
      flat_map (fun kv : string * pyval =>
                  if String.eqb metric (fst kv) && isinstance_int_float (snd kv)
                  then [snd kv] else [])
               mits
  | _ => []
  end.

Definition case_values (label metric : string) (case_data : pyval) : list pyval :=
  match case_data with
  | PDict its =>
      flat_map (fun kv : string * pyval =>
                  if String.eqb label (fst kv)
                  then metric_values metric (snd kv) else [])
               its
  | _ => []
  end.

(** The sequence of [(label, metric)] over the sub-units of a scene, in the
    order of the sub-units. *)
Definition contributions (label metric : string) (scene_results : dict Z pyval)
  : list pyval :=
  flat_map (fun kv : Z * pyval => case_values label metric (snd kv))
           scene_results.

(** A sub-unit is a mapping of mappings. *)
Definition shaped_case (case_data : pyval) : Prop :=
  exists its, case_data = PDict its /\
    forall kv, In kv its -> exists mits, snd kv = PDict mits.

Definition well_shaped (scene_results : dict Z pyval) : Prop :=
  forall kv, In kv scene_results -> shaped_case (snd kv).

(** The means the scenes report for [(label, metric)], in the order of the
    scenes. *)
Definition block_means (metric : string) (metrics : dict string stat_block)
  : list float :=
  flat_map (fun kv : string * stat_block =>
              if String.eqb metric (fst kv) then [sb_mean (snd kv)] else [])
           metrics.

Definition scene_means (label metric : string) (scene_stats : stats_dict)
  : list float :=
  flat_map (fun it : string * dict string stat_block =>
              if String.eqb label (fst it)
              then block_means metric (snd it) else [])
           scene_stats.

Definition group_means (label metric : string)
    (all_scene_stats : dict string stats_dict) : list float :=
  flat_map (fun kv : string * stats_dict => scene_means label metric (snd kv))
           all_scene_stats.

(** The dicts of every scene have unique keys, as Python dicts do. *)
Definition unique_keys (all_scene_stats : dict string stats_dict) : Prop :=
  forall g gs, In (g, gs) all_scene_stats ->
    NoDup (dict_keys gs) /\
    forall it ms, In (it, ms) gs -> NoDup (dict_keys ms).

Definition has_pair (label metric : string) (gs : stats_dict) : bool :=
  match get2 label metric gs with
  | Some _ => true
  | None => false
  end.

(** The number of groups whose statistics contain [(label, metric)]. *)
Definition groups_with (label metric : string)
    (all_scene_stats : dict string stats_dict) : nat :=
  List.length
    (filter (fun kv : string * stats_dict => has_pair label metric (snd kv))
            all_scene_stats).

(** The integers that [np.array] stores in an integer array: the range of
    int64 together with that of uint64.  One integer outside it turns the
    whole array into one of dtype object. *)
Definition native_int (z : Z) : bool :=
  ((- 2 ^ 63 <=? z) && (z <? 2 ^ 64))%Z.

Definition native_number (v : pyval) : bool :=
  match v with
  | PInt z => native_int z
  | _ => true
  end.

(** No sequence of the scene holds an integer beyond 64 bits. *)
Definition native_numbers (scene_results : dict Z pyval) : Prop :=
  forall label metric,
    forallb native_number (contributions label metric scene_results) = true.

(** A value of JSON type number. *)
Definition is_json_number (v : pyval) : bool :=
  match v with
  | PInt _ | PFloat _ => true
  | _ => false
  end.

(** Some sub-unit reports [v] for [(label, metric)]. *)
Definition reported (label metric : string) (v : pyval)
    (scene_results : dict Z pyval) : Prop :=
  exists case_id its mits,
    In (case_id, PDict its) scene_results /\
    In (label, PDict mits) its /\ In (metric, v) mits.

(** No directory of the tree lists a name twice. *)
Fixpoint unique_names (n : node) : Prop :=
  match n with
  | NFile _ => True
  | NDir es =>
      NoDup (map fst es) /\
      (fix children (es : list (string * node)) : Prop :=
         match es with
         | [] => True
         | kv :: es' => unique_names (snd kv) /\ children es'
         end) es
  end.

(** What [json.dump] writes, for any serialiser [json_dumps] of the
    summary object. *)
Definition structured_output (json_dumps : summary -> string) (o : outcome)
  : list string :=
  flat_map (fun pa : path * artifact =>
              match snd pa with
              | JsonDocument s => [json_dumps s]
              | CsvTable _ => []
              end)
           (written o).

Definition is_not_found (e : event) : bool :=
  match e with
  | ErrorNotFound _ => true
  | _ => false
  end.

(** ** More inputs *)

Definition scene_A_results : dict Z pyval :=
  [(0%Z, psnr_unit 20); (1%Z, psnr_unit 22)].

Definition bool_unit : pyval :=
  PDict [("ours_7000", PDict [("PSNR", PBool true)])].

Definition duplicate_units : list (string * node) :=
  [("a_case1", results_file (psnr_unit 22));
   ("a_case01", results_file (psnr_unit 20))].

Definition mixed_unit : dict Z pyval :=
  [(0%Z, PDict [("ours_7000",
                 PDict [("PSNR", PFloat 20); ("note", PStr "ok");
                        ("SSIM", PNone); ("flag", PBool true)])])].

Definition plain_order (l : list (string * node)) : list (string * node) := l.

Definition both_formats (results_dir : path) (output_dir : option path)
  : arguments :=
  {| arg_results_dir := results_dir; arg_output_dir := output_dir;
     arg_formats := [Json; Csv] |}.

Definition fs_scenario_B : node := NDir [("out", NDir scenario_B)].

Definition fs_malformed : node :=
  NDir [("out", NDir [("a_case0", results_file (PList []))])].

(** ** Vocabulary of the further properties *)

(** [str(n)] for a natural number. *)
Definition decimal (n : nat) : string :=
  NilEmpty.string_of_uint (Nat.to_uint n).

(** The collection is a dict of non-empty dicts. *)
Definition wf_collection (coll : collection) : Prop :=
  NoDup (dict_keys coll) /\
  forall g cases, In (g, cases) coll ->
    cases <> [] /\ NoDup (dict_keys cases).

(** A recognised directory without a [results.json]. *)
Definition lacks_results (d : string * node) : bool :=
  match extract_scene_and_case (fst d) with
  | Some _ =>
      match dict_get "results.json" (entries_of (snd d)) with
      | Some _ => false
      | None => true
      end
  | None => false
  end.

Definition is_missing_event (e : event) : bool :=
  match e with
  | MissingResults _ | MissingTally _ => true
  | _ => false
  end.

(** No label of the gathered sequences maps to an empty dict. *)
Definition inner_nonempty {V} (m : dict string (dict string V)) : Prop :=
  forall label inner, In (label, inner) m -> inner <> [].

(** The groups of a collection in which some sub-unit contributes a value
    to [(label, metric)]. *)
Definition contributing_groups (label metric : string) (coll : collection)
  : list (string * dict Z pyval) :=
  filter (fun kv : string * dict Z pyval =>
            match contributions label metric (snd kv) with
            | [] => false
            | _ :: _ => true
            end)
         coll.

(** ** [print_results_table]

    The table as data: one heading per iteration name, in sorted order, and
    under it one row for each of PSNR, SSIM, LPIPS that the iteration has;
    the four statistics of a row are printed with four decimals. *)
Definition known_metrics : list string := ["PSNR"; "SSIM"; "LPIPS"].

Definition table_rows (metrics : dict string stat_block)
  : list (string * stat_block) :=
  flat_map (fun metric_name =>
              match dict_get metric_name metrics with
              | Some stat => [(metric_name, stat)]
              | None => []
              end)
           known_metrics.

(** [overall_stats[iteration_name]] reads a key taken from the dict itself. *)
Definition print_results_table (overall_stats : stats_dict)
  : list (string * list (string * stat_block)) :=
  map (fun iteration_name =>
         let metrics :=
           match dict_get iteration_name overall_stats with
           | Some metrics => metrics
           | None => []
           end in
         (iteration_name, table_rows metrics))
      (sorted String.ltb (dict_keys overall_stats)).

(** The row [save_csv] writes for one block. *)
Definition csv_row_of (iteration_name metric_name : string) (stat : stat_block)
  : csv_row :=
  {| row_iteration := iteration_name;
     row_metric := metric_name;
     row_mean := stat.(sb_mean);
     row_std := stat.(sb_std);
     row_min := stat.(sb_min);
     row_max := stat.(sb_max);
     row_count := stat.(sb_count) |}.

(** Rows in the order of the file: by iteration name, then by metric name. *)
Definition row_le (r1 r2 : csv_row) : Prop :=
  String.ltb (row_iteration r2) (row_iteration r1) = false /\
  (row_iteration r1 = row_iteration r2 ->
   String.ltb (row_metric r2) (row_metric r1) = false).

Definition scenario_B_summary : summary :=
  {| sum_metadata :=
       {| results_directory := "out"; num_scenes := 2; num_cases := 2;
          scene_list := ["sceneA"; "sceneB"]; note := the_note |};
     overall_statistics :=
       [("ours_7000",
         [("PSNR", {| sb_mean := 25; sb_std := 5; sb_min := 20; sb_max := 30;
                      sb_count := 2; sb_values := None |})])];
     per_scene_statistics :=
       [("sceneA",
         [("ours_7000",
           [("PSNR", {| sb_mean := 20; sb_std := 0; sb_min := 20; sb_max := 20;
                        sb_count := 1; sb_values := Some [PFloat 20] |})])]);
        ("sceneB",
         [("ours_7000",
           [("PSNR", {| sb_mean := 30; sb_std := 0; sb_min := 30; sb_max := 30;
                        sb_count := 1; sb_values := Some [PFloat 30] |})])])] |}.

(** Overall statistics with a metric outside the known three. *)
Definition stats_with_extra_metric : stats_dict :=
  [("ours_7000",
    [("SSIM", overall_block sequential_sum [1%float]);
     ("depth", overall_block sequential_sum [2%float]);
     ("PSNR", overall_block sequential_sum [20%float])])].

(** * Properties *)

(** ** The order of strings *)

Lemma ascii_compare_refl (a : ascii) : Ascii.compare a a = Eq.
Proof. unfold Ascii.compare. apply N.compare_refl. Qed.

Lemma string_compare_refl (s : string) : String.compare s s = Eq.
Proof.
  induction s as [|a s IH]; simpl; [reflexivity|].
  now rewrite ascii_compare_refl.
Qed.

Lemma string_compare_lt_trans (a b c : string) :
  String.compare a b = Lt -> String.compare b c = Lt -> String.compare a c = Lt.
Proof.
  revert b c.
  induction a as [|x a IH]; intros [|y b] [|z c]; simpl; try congruence.
  unfold Ascii.compare.
  destruct (N.compare_spec (N_of_ascii x) (N_of_ascii y)) as [Exy|Lxy|Gxy];
    try discriminate;
    destruct (N.compare_spec (N_of_ascii y) (N_of_ascii z)) as [Eyz|Lyz|Gyz];
    try discriminate; intros H1 H2.
  - rewrite Exy, Eyz, N.compare_refl. eauto.
  - rewrite Exy. now apply N.compare_lt_iff in Lyz as ->.
  - rewrite <- Eyz. now apply N.compare_lt_iff in Lxy as ->.
  - assert (Hxz : (N_of_ascii x < N_of_ascii z)%N) by lia.
    now apply N.compare_lt_iff in Hxz as ->.
Qed.

Lemma string_ltb_irrefl (s : string) : String.ltb s s = false.
Proof. unfold String.ltb. now rewrite string_compare_refl. Qed.

Lemma string_ltb_trans (a b c : string) :
  String.ltb a b = true -> String.ltb b c = true -> String.ltb a c = true.
Proof.
  unfold String.ltb.
  destruct (String.compare a b) eqn:Hab; try discriminate.
  destruct (String.compare b c) eqn:Hbc; try discriminate.
  now rewrite (string_compare_lt_trans _ _ _ Hab Hbc).
Qed.

Lemma string_ltb_total (a b : string) :
  String.ltb a b = false -> String.ltb b a = false -> a = b.
Proof.
  unfold String.ltb. rewrite (String.compare_antisym b a).
  destruct (String.compare a b) eqn:Hab; simpl; try discriminate.
  intros _ _. now apply String.compare_eq_iff.
Qed.

Lemma string_ltb_asym (a b : string) :
  String.ltb a b = true -> String.ltb b a = false.
Proof.
  unfold String.ltb. rewrite (String.compare_antisym b a).
  now destruct (String.compare a b).
Qed.

(** ** [sorted] *)

Section SortedFacts.
Context {A K : Type} (key : A -> K) (ltk : K -> K -> bool).
Hypothesis ltk_trans :
  forall a b c, ltk a b = true -> ltk b c = true -> ltk a c = true.
Hypothesis ltk_total : forall a b, ltk a b = false -> ltk b a = false -> a = b.
Hypothesis ltk_irrefl : forall a, ltk a a = false.

Let lt (x y : A) : bool := ltk (key x) (key y).
Let le (x y : A) : Prop := lt y x = false.

Lemma le_trans x y z : le x y -> le y z -> le x z.
Proof using ltk_trans ltk_total.
  unfold le, lt. intros Hxy Hyz.
  destruct (ltk (key z) (key x)) eqn:Hzx; [|reflexivity].
  destruct (ltk (key x) (key y)) eqn:Hlt.
  - now rewrite (ltk_trans _ _ _ Hzx Hlt) in Hyz.
  - rewrite (ltk_total _ _ Hlt Hxy) in Hzx. congruence.
Qed.

Lemma lt_le x y : lt x y = true -> le x y.
Proof using ltk_trans ltk_irrefl.
  unfold le, lt. intros Hxy.
  destruct (ltk (key y) (key x)) eqn:Hyx; [|reflexivity].
  pose proof (ltk_trans _ _ _ Hxy Hyx) as Hxx.
  now rewrite ltk_irrefl in Hxx.
Qed.

Lemma sorted_insert_perm x l : Permutation (sorted_insert lt x l) (x :: l).
Proof.
  induction l as [|y l IH]; simpl; [reflexivity|].
  destruct (lt y x); [|reflexivity].
  rewrite IH. apply perm_swap.
Qed.

Lemma sorted_perm l : Permutation (sorted lt l) l.
Proof.
  induction l as [|x l IH]; simpl; [reflexivity|].
  rewrite sorted_insert_perm. now constructor.
Qed.

Lemma sorted_insert_strongly x l :
  StronglySorted le l -> StronglySorted le (sorted_insert lt x l).
Proof using ltk_trans ltk_total ltk_irrefl.
  induction 1 as [|y l Hl IH Hy]; simpl.
  - repeat constructor.
  - destruct (lt y x) eqn:Hyx.
    + constructor; [exact IH|].
      rewrite Forall_forall. intros z Hz.
      apply (Permutation_in _ (sorted_insert_perm x l)) in Hz.
      destruct Hz as [<-|Hz]; [now apply lt_le|].
      rewrite Forall_forall in Hy. now apply Hy.
    + constructor; [now constructor|].
      constructor; [exact Hyx|].
      rewrite Forall_forall in *. intros z Hz.
      apply le_trans with y; [exact Hyx|now apply Hy].
Qed.

Lemma sorted_strongly l : StronglySorted le (sorted lt l).
Proof using ltk_trans ltk_total ltk_irrefl.
  induction l as [|x l IH]; simpl; [constructor|].
  now apply sorted_insert_strongly.
Qed.

(** Two sorted lists with the same elements and no repeated key are the
    same list. *)
Lemma strongly_sorted_unique l1 l2 :
  StronglySorted le l1 -> StronglySorted le l2 ->
  NoDup (map key l1) -> Permutation l1 l2 -> l1 = l2.
Proof using ltk_total.
  intros H1; revert l2.
  induction H1 as [|x l1 Hl1 IH Hx]; intros l2 H2 Hnd Hp.
  - now apply Permutation_nil in Hp.
  - destruct H2 as [|y l2 Hl2 Hy].
    + symmetry in Hp. now apply Permutation_nil in Hp.
    + assert (Hxy : x = y).
      { assert (Hin_x : In x (y :: l2))
          by (apply (Permutation_in _ Hp); now left).
        assert (Hin_y : In y (x :: l1))
          by (apply (Permutation_in _ (Permutation_sym Hp)); now left).
        destruct Hin_x as [->|Hin_x]; [reflexivity|].
        destruct Hin_y as [->|Hin_y]; [reflexivity|].
        rewrite Forall_forall in Hx, Hy.
        pose proof (Hx _ Hin_y) as Hxy. pose proof (Hy _ Hin_x) as Hyx.
        unfold le, lt in Hxy, Hyx.
        pose proof (ltk_total _ _ Hyx Hxy) as Hk.
        inversion Hnd as [|? ? Hnotin _]; subst.
        exfalso. apply Hnotin. rewrite Hk. now apply in_map. }
      subst y. f_equal.
      apply IH; [exact Hl2| now inversion Hnd |].
      now apply Permutation_cons_inv in Hp.
Qed.

(** The sorted list does not depend on the order of the input. *)
Lemma sorted_permutation_invariant l1 l2 :
  NoDup (map key l1) -> Permutation l1 l2 -> sorted lt l1 = sorted lt l2.
Proof using ltk_trans ltk_total ltk_irrefl.
  intros Hnd Hp.
  apply strongly_sorted_unique; try apply sorted_strongly.
  - apply (Permutation_NoDup (l := map key l1)); [|exact Hnd].
    apply Permutation_map. symmetry. apply sorted_perm.
  - rewrite sorted_perm, Hp. symmetry. apply sorted_perm.
Qed.

Lemma sorted_insert_split x l :
  exists a b, sorted_insert lt x l = a ++ x :: b /\ l = a ++ b.
Proof.
  induction l as [|y l (a & b & Ha & Hb)]; simpl.
  - now exists [], [].
  - destruct (lt y x).
    + exists (y :: a), b. simpl. now rewrite Ha, Hb at 1.
    + now exists [], (y :: l).
Qed.

Lemma sorted_insert_around y a x b :
  StronglySorted le (a ++ x :: b) ->
  exists a' b',
    sorted_insert lt y (a ++ x :: b) = a' ++ x :: b' /\
    sorted_insert lt y (a ++ b) = a' ++ b'.
Proof using ltk_trans ltk_total.
  induction a as [|z a IH]; simpl; intros Hs.
  - destruct (lt x y) eqn:Hxy.
    + now exists [], (sorted_insert lt y b).
    + exists [y], b. split; [reflexivity|].
      destruct b as [|z b]; [reflexivity|]. simpl.
      assert (Hzy : lt z y = false).
      { apply (le_trans y x z); [exact Hxy|].
        inversion Hs as [|? ? _ Hall]; subst.
        now inversion Hall. }
      now rewrite Hzy.
  - destruct (lt z y).
    + inversion Hs as [|? ? Hs' _]; subst.
      destruct (IH Hs') as (a' & b' & H1 & H2).
      exists (z :: a'), b'. simpl. now rewrite H1, H2.
    + now exists (y :: z :: a), b.
Qed.

Lemma sorted_around a x b :
  exists a' b',
    sorted lt (a ++ x :: b) = a' ++ x :: b' /\
    sorted lt (a ++ b) = a' ++ b'.
Proof using ltk_trans ltk_total ltk_irrefl.
  induction a as [|y a (a' & b' & H1 & H2)]; simpl.
  - apply sorted_insert_split.
  - rewrite H1, H2. apply sorted_insert_around.
    rewrite <- H1. apply sorted_strongly.
Qed.

(** An element on which a loop body does nothing can be left out of the
    list before it is sorted. *)
Lemma fold_sorted_skip {S} (f : S -> A -> S) a x b s :
  (forall s', f s' x = s') ->
  fold_left f (sorted lt (a ++ x :: b)) s = fold_left f (sorted lt (a ++ b)) s.
Proof using ltk_trans ltk_total ltk_irrefl.
  intros Hx. destruct (sorted_around a x b) as (a' & b' & -> & ->).
  rewrite !fold_left_app. simpl. now rewrite Hx.
Qed.

End SortedFacts.

(** ** Strings: [split] and [int] *)

Module PyStrFacts.
Import PyStr.
Local Open Scope string_scope.

Lemma contains_cons sep c s :
  contains sep (String c s) = false ->
  startswith sep (String c s) = false /\ contains sep s = false.
Proof. simpl. now intros [? ?]%orb_false_iff. Qed.

Lemma contains_startswith sep s :
  contains sep s = false -> startswith sep s = false.
Proof.
  destruct s; simpl; [now rewrite orb_false_r|].
  now intros [? ?]%orb_false_iff.
Qed.

Lemma partition_none sep s :
  partition sep s = None <-> contains sep s = false.
Proof.
  induction s as [|c s IH]; simpl.
  - destruct sep; simpl; intuition congruence.
  - destruct (startswith sep (String c s)); simpl; [intuition congruence|].
    destruct (partition sep s) as [[b a]|].
    + split; [discriminate|]. intros H. apply IH in H. discriminate.
    + split; [intros _; now apply IH|reflexivity].
Qed.

(** The delimiter cannot begin inside a prefix that does not contain it
    and end inside the delimiter that follows: no proper end of ["_case"]
    is a beginning of it. *)
Lemma startswith_case_straddle g r :
  g <> EmptyString ->
  startswith "_case" g = false ->
  startswith "_case" (g ++ "_case" ++ r) = false.
Proof.
  intros Hne Hg.
  destruct g as [|c1 [|c2 [|c3 [|c4 [|c5 g]]]]]; [congruence|..];
    simpl in *;
    repeat match goal with
           | |- context [Ascii.eqb ?a ?b] =>
               destruct (Ascii.eqb a b) eqn:?; simpl in *; try discriminate
           end;
    try reflexivity; try assumption.
Qed.

Lemma partition_case g r :
  contains "_case" g = false ->
  partition "_case" (g ++ "_case" ++ r) = Some (g, r).
Proof.
  induction g as [|c g IH]; intros Hg.
  - reflexivity.
  - apply contains_cons in Hg as [Hs Hg].
    change (String c g ++ "_case" ++ r) with (String c (g ++ "_case" ++ r)).
    cbn [partition].
    change (String c (g ++ "_case" ++ r)) with (String c g ++ "_case" ++ r).
    rewrite startswith_case_straddle by (congruence || assumption).
    now rewrite IH.
Qed.

Lemma contains_decompose sep s :
  contains sep s = true ->
  exists g r, s = g ++ sep ++ r /\ partition sep s = Some (g, r).
Proof.
  induction s as [|c s IH]; simpl.
  - destruct sep; simpl; [|discriminate].
    intros _. now exists EmptyString, EmptyString.
  - destruct (startswith sep (String c s)) eqn:Hs.
    + intros _. exists EmptyString, (drop (String.length sep) (String c s)).
      split; [|reflexivity]. simpl.
      clear IH. revert Hs. generalize (String c s) as t.
      induction sep as [|a sep IH]; intros t Hs; [reflexivity|].
      destruct t as [|b t]; [discriminate|]. simpl in *.
      apply andb_true_iff in Hs as [Hab Hs].
      apply Ascii.eqb_eq in Hab as ->. f_equal. now apply IH.
    + simpl. intros Hc. destruct (IH Hc) as (g & r & -> & ->).
      now exists (String c g), r.
Qed.

Lemma string_length_app (a b : string) :
  String.length (a ++ b) = (String.length a + String.length b)%nat.
Proof. induction a as [|c a IH]; simpl; [reflexivity|now rewrite IH]. Qed.

Lemma split_fuel_nonempty fuel sep s : split_fuel fuel sep s <> [].
Proof.
  destruct fuel; simpl; destruct (partition sep s) as [[b a]|]; discriminate.
Qed.

(** [split] on a name whose first delimiter follows [g]. *)
Lemma split_case g r :
  contains "_case" g = false ->
  split "_case" (g ++ "_case" ++ r) =
  g :: split_fuel (String.length g + 4 + String.length r) "_case" r.
Proof.
  intros Hg. unfold split.
  rewrite string_length_app. simpl String.length.
  replace (String.length g + S (S (S (S (S (String.length r))))))%nat
    with (S (String.length g + 4 + String.length r)) by lia.
  cbn [split_fuel]. now rewrite partition_case.
Qed.

Lemma all_space_int_chars s : all_space s = true -> all_int_chars s = true.
Proof.
  induction s as [|c s IH]; simpl; [reflexivity|].
  intros [Hc Hs]%andb_true_iff. unfold int_char. now rewrite Hc, IH.
Qed.

Lemma digit_int_char c d : digit_val c = Some d -> int_char c = true.
Proof.
  unfold int_char. intros ->. now rewrite orb_true_r.
Qed.

Lemma int_digits_chars n : forall s acc z,
  (String.length s <= n)%nat ->
  int_digits acc s = Some z -> all_int_chars s = true.
Proof.
  induction n as [|n IH]; intros [|c s] acc z Hn; simpl in *;
    try reflexivity; try lia.
  destruct (digit_val c) as [d|] eqn:Hd.
  - intros H. rewrite (digit_int_char _ _ Hd). simpl.
    eapply IH; [|exact H]; lia.
  - destruct (Ascii.eqb c "_") eqn:Hu.
    + destruct s as [|c' s]; [discriminate|].
      destruct (digit_val c') as [d|] eqn:Hd'; [|discriminate].
      intros H. simpl. rewrite (digit_int_char _ _ Hd').
      unfold int_char at 1. rewrite Hu. rewrite !orb_true_r. simpl.
      eapply IH; [|exact H]; simpl in Hn; lia.
    + destruct (is_space c) eqn:Hc; simpl; [|discriminate].
      destruct (all_space s) eqn:Hs; [|discriminate].
      intros _. unfold int_char. rewrite Hc. simpl.
      now apply all_space_int_chars.
Qed.

Lemma int_unsigned_chars s z :
  int_unsigned s = Some z -> all_int_chars s = true.
Proof.
  destruct s as [|c s]; simpl; [discriminate|].
  destruct (digit_val c) as [d|] eqn:Hd; [|discriminate].
  intros H. rewrite (digit_int_char _ _ Hd). simpl.
  now apply (int_digits_chars (String.length s) s d z).
Qed.

Lemma lstrip_chars s :
  all_int_chars (lstrip s) = true -> all_int_chars s = true.
Proof.
  induction s as [|c s IH]; simpl; [reflexivity|].
  destruct (is_space c) eqn:Hc; [|now simpl].
  intros H. unfold int_char. rewrite Hc. simpl. now apply IH.
Qed.

Lemma int_chars s z : int s = Some z -> all_int_chars s = true.
Proof.
  unfold int. intros H. apply lstrip_chars.
  destruct (lstrip s) as [|c t]; [discriminate|].
  destruct (Ascii.eqb c "-") eqn:Hm.
  - destruct (int_unsigned t) as [u|] eqn:Hu; [|discriminate].
    simpl. unfold int_char. rewrite Hm, !orb_true_r. simpl.
    now apply (int_unsigned_chars t u).
  - destruct (Ascii.eqb c "+") eqn:Hp.
    + simpl. unfold int_char. rewrite Hp, !orb_true_r. simpl.
      now apply (int_unsigned_chars t z).
    + now apply (int_unsigned_chars (String c t) z).
Qed.

Lemma int_chars_no_case s :
  all_int_chars s = true -> contains "_case" s = false.
Proof.
  induction s as [|c s IH]; [reflexivity|].
  intros H. pose proof H as H0. simpl in H0.
  apply andb_true_iff in H0 as [_ Hs].
  cbn [contains]. rewrite (IH Hs), orb_false_r.
  destruct s as [|c2 s]; cbn [startswith].
  - apply andb_false_r.
  - destruct (Ascii.eqb "c" c2) eqn:Hc; [|apply andb_false_r].
    apply Ascii.eqb_eq in Hc as <-. simpl in Hs. discriminate.
Qed.

(** A suffix that [int] accepts does not contain the delimiter. *)
Lemma int_no_case s z : int s = Some z -> contains "_case" s = false.
Proof. intros H. eapply int_chars_no_case, int_chars, H. Qed.

End PyStrFacts.

(** What [extract_scene_and_case] returns on a name whose first delimiter
    follows [g]. *)
Lemma extract_scene_and_case_first (g r : string) :
  PyStr.contains "_case" g = false ->
  extract_scene_and_case (g ++ "_case" ++ r)%string =
  option_map (pair g) (PyStr.int r).
Proof.
  intros Hg. unfold extract_scene_and_case.
  rewrite PyStrFacts.split_case by exact Hg.
  set (fuel := (String.length g + 4 + String.length r)%nat).
  destruct (PyStr.contains "_case" r) eqn:Hr.
  - assert (Hint : PyStr.int r = None).
    { destruct (PyStr.int r) eqn:Hi; [|reflexivity].
      apply PyStrFacts.int_no_case in Hi. congruence. }
    rewrite Hint. simpl.
    destruct (PyStrFacts.contains_decompose _ _ Hr) as (b & a & _ & Hp).
    replace fuel with (S (String.length g + 3 + String.length r)) by (unfold fuel; lia).
    cbn [PyStr.split_fuel]. rewrite Hp.
    pose proof (PyStrFacts.split_fuel_nonempty
                  (String.length g + 3 + String.length r) "_case" a).
    now destruct (PyStr.split_fuel _ "_case" a).
  - apply PyStrFacts.partition_none in Hr.
    destruct fuel; cbn [PyStr.split_fuel]; rewrite Hr;
      now destruct (PyStr.int r).
Qed.


(** The example of the docstring, and names the locator refuses. *)
Example extract_docstring :
  extract_scene_and_case "scene0686_01_case5" = Some ("scene0686_01", 5%Z).
Proof. reflexivity. Qed.

Example extract_refused :
  map extract_scene_and_case
      ["sceneB_caseX"; "a_case1_case2"; "a_case"; "a_case 7 "; "_case07"; "plain"]
  = [None; None; None; Some ("a", 7%Z); Some ("", 7%Z); None].
Proof. reflexivity. Qed.

Example split_samples :
  map (PyStr.split "_case") ["a_case1_case2"; "_case5"; "a_case"; "a_cas_case5"]
  = [["a"; "1"; "2"]; [""; "5"]; ["a"; ""]; ["a_cas"; "5"]].
Proof. reflexivity. Qed.

Example int_samples :
  map PyStr.int
      [" 5 "; "+5"; "-5"; "1_0"; "007"; "_1"; "1_"; "1__0"; "5.0"; "- 5"; ""; "0x10"]
  = [Some 5; Some 5; Some (-5); Some 10; Some 7; None; None; None; None; None;
     None; None]%Z.
Proof. reflexivity. Qed.

(** ** Dicts *)

Section DictFacts.
Context {K V : Type} `{PyKey K}.
Implicit Types (k : K) (v : V) (d : dict K V).

Lemma key_eqb_refl k : key_eqb k k = true.
Proof. now destruct (key_eqb_spec k k). Qed.

Lemma key_eqb_neq k k' : k <> k' -> key_eqb k k' = false.
Proof. now destruct (key_eqb_spec k k'). Qed.

Lemma key_eqb_eq k k' : key_eqb k k' = true -> k = k'.
Proof. now destruct (key_eqb_spec k k'). Qed.

Lemma dict_get_set_same k v d : dict_get k (dict_set k v d) = Some v.
Proof.
  induction d as [|[k' v'] d IH]; simpl.
  - now rewrite key_eqb_refl.
  - destruct (key_eqb k k') eqn:E; simpl; rewrite E; [reflexivity|exact IH].
Qed.

Lemma dict_get_set_other k k' v d :
  k <> k' -> dict_get k (dict_set k' v d) = dict_get k d.
Proof.
  intros Hne. induction d as [|[k0 v0] d IH]; simpl.
  - now rewrite key_eqb_neq.
  - destruct (key_eqb k' k0) eqn:E; simpl.
    + apply key_eqb_eq in E as <-. now rewrite key_eqb_neq.
    + now rewrite IH.
Qed.

Lemma dict_get_in k v d : dict_get k d = Some v -> In (k, v) d.
Proof.
  induction d as [|[k' v'] d IH]; simpl; [discriminate|].
  destruct (key_eqb k k') eqn:E.
  - apply key_eqb_eq in E as <-. intros [= <-]. now left.
  - intros Hg. right. now apply IH.
Qed.

Lemma dict_get_none k d : dict_get k d = None <-> ~ In k (dict_keys d).
Proof.
  induction d as [|[k' v'] d IH]; simpl; [tauto|].
  destruct (key_eqb_spec k k') as [->|Hne].
  - split; [discriminate|]. intros Hn. exfalso. apply Hn. now left.
  - rewrite IH. unfold dict_keys. split; intros Hn; [|tauto].
    intros [He|Hi]; [congruence|tauto].
Qed.

Lemma in_dict_get k v d :
  NoDup (dict_keys d) -> In (k, v) d -> dict_get k d = Some v.
Proof.
  induction d as [|[k' v'] d IH]; simpl; [tauto|].
  intros Hnd [[= -> ->]|Hin].
  - now rewrite key_eqb_refl.
  - inversion Hnd as [|? ? Hnotin Hnd']; subst.
    destruct (key_eqb_spec k k') as [->|Hne]; [|now apply IH].
    exfalso. apply Hnotin. now apply (in_map fst) in Hin.
Qed.

Lemma in_dict_set k v k0 v0 d :
  In (k0, v0) (dict_set k v d) -> (k0 = k /\ v0 = v) \/ In (k0, v0) d.
Proof.
  induction d as [|[k' v'] d IH]; simpl.
  - intros [[= <- <-]|[]]. now left.
  - destruct (key_eqb k k') eqn:E; simpl.
    + apply key_eqb_eq in E as <-.
      intros [[= <- <-]|Hin]; [now left|now right; right].
    + intros [Heq|Hin]; [now right; left|].
      destruct (IH Hin); [now left|now right; right].
Qed.

Lemma dict_set_fresh k v d :
  dict_get k d = None -> dict_set k v d = d ++ [(k, v)].
Proof.
  induction d as [|[k' v'] d IH]; simpl; [reflexivity|].
  destruct (key_eqb k k'); [discriminate|].
  intros Hg. now rewrite IH.
Qed.

Lemma dict_keys_set k v d :
  dict_keys (dict_set k v d) =
  match dict_get k d with
  | Some _ => dict_keys d
  | None => dict_keys d ++ [k]
  end.
Proof.
  induction d as [|[k' v'] d IH]; simpl; [reflexivity|].
  destruct (key_eqb k k') eqn:E; simpl; [reflexivity|].
  rewrite IH. now destruct (dict_get k d).
Qed.

Lemma dict_set_nodup k v d :
  NoDup (dict_keys d) -> NoDup (dict_keys (dict_set k v d)).
Proof.
  intros Hnd. rewrite dict_keys_set.
  destruct (dict_get k d) eqn:Hg; [exact Hnd|].
  apply dict_get_none in Hg.
  apply (Permutation_NoDup (l := k :: dict_keys d)).
  - apply Permutation_cons_append.
  - now constructor.
Qed.

Lemma dict_set_not_nil k v d : dict_set k v d <> [].
Proof.
  destruct d as [|[k' v'] d]; simpl; [discriminate|].
  destruct (key_eqb k k'); discriminate.
Qed.

End DictFacts.

(** ** The result locator *)

Lemma unit_of_parsed d g c v :
  unit_of d = Some (g, c, v) ->
  extract_scene_and_case (fst d) = Some (g, c) /\
  dict_get "results.json" (entries_of (snd d)) = Some (NFile (Parsed v)) /\
  v <> PNone.
Proof.
  unfold unit_of.
  destruct (extract_scene_and_case (fst d)) as [[g' c']|]; [|discriminate].
  destruct (dict_get "results.json" (entries_of (snd d))) as [f|];
    [|discriminate].
  destruct f as [[w|]|es]; simpl; try discriminate.
  destruct (is_None w) eqn:Hn; [discriminate|].
  intros [= -> -> ->]. repeat split. now destruct v.
Qed.

Lemma collect_step_results st d :
  all_results (collect_step st d) =
  match unit_of d with
  | Some (g, c, v) =>
      dict_set g (dict_set c v (dict_get_default [] g st.(all_results)))
               st.(all_results)
  | None => st.(all_results)
  end.
Proof.
  unfold collect_step, unit_of. destruct d as [name n]. simpl.
  destruct (extract_scene_and_case name) as [[g c]|]; [|reflexivity].
  destruct (dict_get "results.json" (entries_of n)) as [f|]; [|reflexivity].
  destruct (load_results_json f) as [v w]. simpl.
  now destruct (is_None v).
Qed.

Lemma collect_step_skipped st d :
  extract_scene_and_case (fst d) = None -> collect_step st d = st.
Proof.
  unfold collect_step. destruct d as [name n]. simpl. now intros ->.
Qed.

Lemma dict_get_default_get {V} (c : Z) (o : option (dict Z V)) :
  dict_get c (match o with Some cases => cases | None => [] end) =
  match o with
  | Some cases => dict_get c cases
  | None => None
  end.
Proof. now destruct o. Qed.

Lemma collection_get_step g c st d :
  collection_get g c (all_results (collect_step st d)) =
  match unit_of d with
  | Some (g', c', v) =>
      if String.eqb g' g && Z.eqb c' c then Some v
      else collection_get g c st.(all_results)
  | None => collection_get g c st.(all_results)
  end.
Proof.
  rewrite collect_step_results.
  destruct (unit_of d) as [[[g' c'] v]|]; [|reflexivity].
  unfold collection_get, dict_get_default.
  destruct (String.eqb_spec g' g) as [->|Hg]; simpl.
  - rewrite dict_get_set_same.
    destruct (Z.eqb_spec c' c) as [->|Hc].
    + apply dict_get_set_same.
    + rewrite dict_get_set_other by congruence.
      exact (dict_get_default_get c (dict_get g (all_results st))).
  - now rewrite dict_get_set_other by congruence.
Qed.

Lemma collection_get_fold g c dirs st :
  collection_get g c (all_results (fold_left collect_step dirs st)) =
  last_unit g c dirs (collection_get g c st.(all_results)).
Proof.
  revert st. induction dirs as [|d dirs IH]; intros st; simpl; [reflexivity|].
  rewrite IH, collection_get_step. unfold last_unit. simpl.
  now destruct (unit_of d) as [[[g' c'] v]|].
Qed.

Lemma all_results_fold_irrelevant dirs st st' :
  all_results st = all_results st' ->
  all_results (fold_left collect_step dirs st) =
  all_results (fold_left collect_step dirs st').
Proof.
  revert st st'. induction dirs as [|d dirs IH]; intros st st' E; simpl;
    [exact E|].
  apply IH. rewrite !collect_step_results. now rewrite E.
Qed.

Lemma from_units_fold all dirs st :
  incl dirs all -> from_units all st.(all_results) ->
  from_units all (all_results (fold_left collect_step dirs st)).
Proof.
  revert st. induction dirs as [|d dirs IH]; intros st Hincl Hst; simpl;
    [exact Hst|].
  apply IH; [intros x Hx; apply Hincl; now right|].
  rewrite collect_step_results.
  destruct (unit_of d) as [[[g' c'] v']|] eqn:Hu; [|exact Hst].
  intros g cases c v Hin Hcv.
  apply in_dict_set in Hin as [[-> ->]|Hin]; [|now apply (Hst g cases)].
  apply in_dict_set in Hcv as [[-> ->]|Hcv].
  - exists d. split; [apply Hincl; now left|exact Hu].
  - unfold dict_get_default in Hcv.
    match type of Hcv with
    | In _ (match ?o with _ => _ end) => destruct o as [cs|] eqn:Hg
    end; [|destruct Hcv].
    apply dict_get_in in Hg. now apply (Hst g' cs).
Qed.

Lemma scene_case_dirs_incl listing d :
  In d (scene_case_dirs listing) ->
  In d listing /\ node_is_dir (snd d) = true /\
  PyStr.contains "_case" (fst d) = true.
Proof.
  unfold scene_case_dirs. intros Hin.
  apply (Permutation_in _ (sorted_perm fst String.ltb _)) in Hin.
  apply filter_In in Hin as [Hin Hp].
  now apply andb_true_iff in Hp.
Qed.

Lemma collect_all_results_sound listing g cases c v :
  In (g, cases) (fst (collect_all_results listing)) -> In (c, v) cases ->
  exists d, In d listing /\ node_is_dir (snd d) = true /\
            unit_of d = Some (g, c, v).
Proof.
  unfold collect_all_results. simpl. intros Hin Hcv.
  destruct (from_units_fold (scene_case_dirs listing) (scene_case_dirs listing)
              {| all_results := []; missing_count := 0;
                 printed := [FoundDirs (List.length (scene_case_dirs listing))] |}
              (incl_refl _) (fun g cases c v H => match H with end)
              g cases c v Hin Hcv) as (d & Hd & Hu).
  exists d. apply scene_case_dirs_incl in Hd. tauto.
Qed.

Lemma filter_permutation {A} (p : A -> bool) l1 l2 :
  Permutation l1 l2 -> Permutation (filter p l1) (filter p l2).
Proof.
  induction 1 as [|x l1 l2 _ IH|x y l|l1 l2 l3 _ IH1 _ IH2]; simpl.
  - constructor.
  - destruct (p x); [now constructor|exact IH].
  - destruct (p x), (p y); try reflexivity. apply perm_swap.
  - now transitivity (filter p l2).
Qed.

Lemma filter_map_nodup {A B} (f : A -> B) (p : A -> bool) l :
  NoDup (map f l) -> NoDup (map f (filter p l)).
Proof.
  induction l as [|x l IH]; simpl; [constructor|].
  intros Hnd. inversion Hnd as [|? ? Hnotin Hnd']; subst.
  destruct (p x); simpl; [|now apply IH].
  constructor; [|now apply IH].
  intros Hin. apply Hnotin. apply in_map_iff in Hin as (y & <- & Hy).
  apply filter_In in Hy as [Hy _]. now apply in_map.
Qed.

Lemma scene_case_dirs_order_independent l1 l2 :
  NoDup (map fst l1) -> Permutation l1 l2 ->
  scene_case_dirs l1 = scene_case_dirs l2.
Proof.
  intros Hnd Hp. unfold scene_case_dirs, path_lt.
  apply (sorted_permutation_invariant fst String.ltb
           string_ltb_trans string_ltb_total string_ltb_irrefl).
  - now apply filter_map_nodup.
  - now apply filter_permutation.
Qed.

Lemma last_unit_app g c l1 l2 o :
  last_unit g c (l1 ++ l2) o = last_unit g c l2 (last_unit g c l1 o).
Proof. apply fold_left_app. Qed.

Lemma last_unit_none g c l o :
  (forall x, In x l -> forall w, unit_of x <> Some (g, c, w)) ->
  last_unit g c l o = o.
Proof.
  revert o. induction l as [|x l IH]; intros o Hl; [reflexivity|].
  unfold last_unit in *. simpl.
  rewrite IH by (intros y Hy; apply Hl; now right).
  destruct (unit_of x) as [[[g' c'] v]|] eqn:Hu; [|reflexivity].
  destruct (String.eqb_spec g' g) as [->|]; [|reflexivity].
  destruct (Z.eqb_spec c' c) as [->|]; [|reflexivity].
  exfalso. now apply (Hl x (or_introl eq_refl) v).
Qed.

Lemma collect_all_results_get listing g c :
  collection_get g c (fst (collect_all_results listing)) =
  last_unit g c (scene_case_dirs listing) None.
Proof. unfold collect_all_results. simpl. apply collection_get_fold. Qed.

Lemma collect_all_results_skip l1 d l2 :
  extract_scene_and_case (fst d) = None ->
  fst (collect_all_results (l1 ++ d :: l2)) =
  fst (collect_all_results (l1 ++ l2)).
Proof.
  intros Hd. unfold collect_all_results, scene_case_dirs. simpl.
  rewrite !filter_app. simpl.
  destruct (node_is_dir (snd d) && PyStr.contains "_case" (fst d)).
  - etransitivity; [apply all_results_fold_irrelevant|].
    2: { unfold path_lt.
         rewrite (fold_sorted_skip fst String.ltb string_ltb_trans
                    string_ltb_total string_ltb_irrefl collect_step).
         - reflexivity.
         - intros s'. now apply collect_step_skipped. }
    reflexivity.
  - apply all_results_fold_irrelevant. reflexivity.
Qed.

(** ** Loops that fill a dict *)

Lemma for_each_pure {A S} (f : S -> A -> S) l s :
  for_each (fun s x => Ok (f s x)) l s = Ok (fold_left f l s).
Proof. revert s. induction l as [|x l IH]; intros s; simpl; auto. Qed.

Lemma for_each_app {A S} (body : S -> A -> result S) l1 l2 s :
  for_each body (l1 ++ l2) s = (s' <- for_each body l1 s ;; for_each body l2 s').
Proof.
  revert s. induction l1 as [|x l1 IH]; intros s; simpl; [reflexivity|].
  destruct (body s x); simpl; [apply IH|reflexivity].
Qed.

Lemma for_each_invariant {A S} (P : S -> Prop) (body : S -> A -> result S) l :
  (forall s x s', In x l -> P s -> body s x = Ok s' -> P s') ->
  forall s out, P s -> for_each body l s = Ok out -> P out.
Proof.
  induction l as [|x l IH]; intros Hstep s out Hs; simpl.
  - now intros [= <-].
  - destruct (body s x) as [s'|e] eqn:Hb; simpl; [|discriminate].
    apply IH; [|eapply Hstep; eauto; now left].
    intros s0 y s1 Hy. apply Hstep. now right.
Qed.

Section FillDict.
Context {V W : Type} (f : V -> result W).
Variable body : dict string W -> string * V -> result (dict string W).

(** A loop [for k, v in d.items(): acc[k] = f(v)] over a dict [d]. *)
Lemma for_each_fill d : forall acc out,
  (forall a kv, In kv d ->
     body a kv = (w <- f (snd kv) ;; Ok (dict_set (fst kv) w a))) ->
  NoDup (dict_keys d) ->
  for_each body d acc = Ok out ->
  forall k,
    match dict_get k d with
    | Some v => exists w, f v = Ok w /\ dict_get k out = Some w
    | None => dict_get k out = dict_get k acc
    end.
Proof.
  induction d as [|[k0 v0] d IH]; intros acc out Hbody Hnd; simpl.
  - now intros [= <-].
  - rewrite (Hbody acc (k0, v0)) by now left. simpl.
    destruct (f v0) as [w0|e] eqn:Hf; simpl; [|discriminate].
    intros Hrest k.
    change (NoDup (k0 :: dict_keys d)) in Hnd.
    apply NoDup_cons_iff in Hnd as [Hnotin Hnd'].
    assert (Hb' : forall a kv, In kv d ->
              body a kv = (w <- f (snd kv) ;; Ok (dict_set (fst kv) w a)))
      by (intros a kv Hkv; apply Hbody; now right).
    pose proof (IH _ _ Hb' Hnd' Hrest k) as Hk.
    cbn [dict_get]. change (key_eqb k k0) with (String.eqb k k0).
    destruct (String.eqb_spec k k0) as [->|Hne].
    + apply dict_get_none in Hnotin. rewrite Hnotin in Hk.
      exists w0. split; [exact Hf|].
      rewrite Hk. apply dict_get_set_same.
    + destruct (dict_get k d); [exact Hk|].
      rewrite Hk. now apply dict_get_set_other.
Qed.

(** The loop ends normally when [f] does on every value. *)
Lemma for_each_fill_ok d : forall acc,
  (forall a kv, In kv d ->
     body a kv = (w <- f (snd kv) ;; Ok (dict_set (fst kv) w a))) ->
  (forall kv, In kv d -> exists w, f (snd kv) = Ok w) ->
  exists out, for_each body d acc = Ok out.
Proof.
  induction d as [|[k0 v0] d IH]; intros acc Hbody Hok; simpl.
  - now exists acc.
  - rewrite (Hbody acc (k0, v0)) by now left. simpl.
    destruct (Hok (k0, v0) (or_introl eq_refl)) as [w0 Hw]. simpl in Hw.
    rewrite Hw. simpl. apply IH.
    + intros a kv Hkv. apply Hbody. now right.
    + intros kv Hkv. apply Hok. now right.
Qed.

(** It raises what [f] raises first. *)
Lemma for_each_fill_raise d : forall acc e,
  (forall a kv, In kv d ->
     body a kv = (w <- f (snd kv) ;; Ok (dict_set (fst kv) w a))) ->
  for_each body d acc = Raise e ->
  exists kv, In kv d /\ f (snd kv) = Raise e.
Proof.
  induction d as [|[k0 v0] d IH]; intros acc e Hbody; simpl; [discriminate|].
  rewrite (Hbody acc (k0, v0)) by now left. simpl.
  destruct (f v0) as [w0|e0] eqn:Hf; simpl.
  - intros Hrest. destruct (IH _ _ (fun a kv Hkv => Hbody a kv (or_intror Hkv)) Hrest)
      as (kv & Hin & Hkv).
    exists kv. split; [now right|exact Hkv].
  - intros [= ->]. exists (k0, v0). split; [now left|exact Hf].
Qed.
End FillDict.

(** ** The metric sequences *)

Section MetricSequences.
Context {V : Type}.
Implicit Types (m : dict string (dict string (list V))).

Lemma get2_append_metric label metric l k (v : V) m :
  get2 label metric (append_metric l k v m) =
  if String.eqb label l && String.eqb metric k
  then Some (values_at label metric m ++ [v])
  else get2 label metric m.
Proof.
  unfold append_metric, values_at, get2, dict_get_default.
  destruct (String.eqb_spec label l) as [->|Hl]; simpl.
  - rewrite dict_get_set_same.
    destruct (String.eqb_spec metric k) as [->|Hk].
    + rewrite dict_get_set_same.
      destruct (dict_get l m) as [inner|]; [|reflexivity].
      now destruct (dict_get k inner).
    + rewrite dict_get_set_other by exact Hk.
      now destruct (dict_get l m).
  - now rewrite dict_get_set_other by exact Hl.
Qed.

Lemma values_at_append_metric label metric l k (v : V) m :
  values_at label metric (append_metric l k v m) =
  if String.eqb label l && String.eqb metric k
  then values_at label metric m ++ [v]
  else values_at label metric m.
Proof.
  unfold values_at at 1. rewrite get2_append_metric.
  now destruct (String.eqb label l && String.eqb metric k).
Qed.

Lemma wf_metrics_nil : wf_metrics (V := V) [].
Proof. split; [constructor|intros ? ? []]. Qed.

Lemma wf_metrics_append l k (v : V) m :
  wf_metrics m -> wf_metrics (append_metric l k v m).
Proof.
  intros [Hnd Hin]. unfold append_metric. split.
  - now apply dict_set_nodup.
  - intros label inner Hli.
    apply in_dict_set in Hli as [[-> ->]|Hli]; [|now apply (Hin label)].
    assert (Hold : NoDup (dict_keys (dict_get_default [] l m)) /\
                   forall metric vs,
                     In (metric, vs) (dict_get_default [] l m) -> vs <> []).
    { unfold dict_get_default.
      destruct (dict_get l m) as [inner|] eqn:Hg.
      - apply dict_get_in in Hg. exact (Hin l inner Hg).
      - split; [constructor|intros ? ? []]. }
    destruct Hold as [Hnd' Hne]. split.
    + now apply dict_set_nodup.
    + intros metric vs Hmv.
      apply in_dict_set in Hmv as [[-> ->]|Hmv]; [|now apply (Hne metric)].
      now destruct (dict_get_default [] k (dict_get_default [] l m)).
Qed.

Lemma wf_metrics_get2 label metric m vs :
  wf_metrics m -> get2 label metric m = Some vs -> vs <> [].
Proof.
  intros [_ Hin]. unfold get2.
  destruct (dict_get label m) as [inner|] eqn:Hg; [|discriminate].
  intros Hk. apply dict_get_in in Hg, Hk.
  now apply (proj2 (Hin _ _ Hg) metric).
Qed.

Lemma get2_values_at label metric m :
  wf_metrics m ->
  get2 label metric m =
  match values_at label metric m with
  | [] => None
  | vs => Some vs
  end.
Proof.
  intros Hwf. unfold values_at.
  destruct (get2 label metric m) as [vs|] eqn:Hg; [|reflexivity].
  pose proof (wf_metrics_get2 _ _ _ _ Hwf Hg).
  now destruct vs.
Qed.
End MetricSequences.

(** ** What the aggregator gathers *)

Lemma gather_metrics_fold label metric it mits :
  forall m,
    values_at label metric (fold_left (gather_metrics it) mits m) =
    values_at label metric m ++
    (if String.eqb label it then metric_values metric (PDict mits) else []).
Proof.
  induction mits as [|[k v] mits IH]; intros m; simpl.
  - destruct (String.eqb label it); now rewrite app_nil_r.
  - rewrite IH. unfold gather_metrics. simpl.
    destruct (isinstance_int_float v).
    + rewrite values_at_append_metric.
      destruct (String.eqb label it); simpl; [|reflexivity].
      destruct (String.eqb metric k); simpl; [|reflexivity].
      now rewrite <- app_assoc.
    + destruct (String.eqb label it); [|reflexivity].
      now rewrite andb_false_r.
Qed.

Lemma gather_metrics_wf it mits :
  forall m, wf_metrics m -> wf_metrics (fold_left (gather_metrics it) mits m).
Proof.
  induction mits as [|[k v] mits IH]; intros m Hm; simpl; [exact Hm|].
  apply IH. unfold gather_metrics.
  destruct (isinstance_int_float v); [now apply wf_metrics_append|exact Hm].
Qed.

Lemma gather_iteration_values label metric its :
  forall m m',
    for_each gather_iteration its m = Ok m' ->
    values_at label metric m' =
    values_at label metric m ++ case_values label metric (PDict its).
Proof.
  induction its as [|[it ms] its IH]; intros m m'; simpl.
  - intros [= <-]. now rewrite app_nil_r.
  - destruct ms as [| | | | | |mits]; simpl; try discriminate.
    intros Hrest. rewrite (IH _ _ Hrest), gather_metrics_fold.
    now rewrite <- app_assoc.
Qed.

Lemma gather_iteration_wf its :
  forall m m', wf_metrics m -> for_each gather_iteration its m = Ok m' ->
               wf_metrics m'.
Proof.
  apply for_each_invariant. intros m [it ms] m' _ Hm. simpl.
  destruct ms; simpl; try discriminate.
  intros [= <-]. now apply gather_metrics_wf.
Qed.

Lemma gather_case_values label metric rs :
  forall m m',
    for_each gather_case rs m = Ok m' ->
    values_at label metric m' =
    values_at label metric m ++ contributions label metric rs.
Proof.
  induction rs as [|[c cd] rs IH]; intros m m'; simpl.
  - intros [= <-]. now rewrite app_nil_r.
  - destruct cd as [| | | | | |its]; simpl; try discriminate.
    destruct (for_each gather_iteration its m) as [m1|e] eqn:H1; simpl;
      [|discriminate].
    intros Hrest. rewrite (IH _ _ Hrest).
    rewrite (gather_iteration_values label metric its _ _ H1).
    now rewrite <- app_assoc.
Qed.

Lemma gather_case_wf rs :
  forall m m', wf_metrics m -> for_each gather_case rs m = Ok m' ->
               wf_metrics m'.
Proof.
  apply for_each_invariant. intros m [c cd] m' _ Hm. simpl.
  destruct cd; simpl; try discriminate.
  now apply gather_iteration_wf.
Qed.

(** The first loop raises on a sub-unit that is not a mapping of mappings
    and on nothing else. *)
Lemma gather_iteration_total its m :
  (forall kv, In kv its -> exists mits, snd kv = PDict mits) ->
  exists m', for_each gather_iteration its m = Ok m'.
Proof.
  revert m. induction its as [|[it ms] its IH]; intros m Hs; simpl.
  - now exists m.
  - destruct (Hs (it, ms) (or_introl eq_refl)) as [mits Hm]. simpl in Hm.
    subst ms. simpl. apply IH. intros kv Hkv. apply Hs. now right.
Qed.

Lemma gather_case_total rs m :
  well_shaped rs -> exists m', for_each gather_case rs m = Ok m'.
Proof.
  revert m. induction rs as [|[c cd] rs IH]; intros m Hs; simpl.
  - now exists m.
  - destruct (Hs (c, cd) (or_introl eq_refl)) as (its & Hcd & Hits).
    simpl in Hcd. subst cd. simpl.
    destruct (gather_iteration_total its m Hits) as [m1 ->]. simpl.
    apply IH. intros kv Hkv. apply Hs. now right.
Qed.

Lemma gather_case_shaped rs m m' :
  for_each gather_case rs m = Ok m' -> well_shaped rs.
Proof.
  revert m. induction rs as [|[c cd] rs IH]; intros m; simpl.
  - intros _ kv [].
  - destruct cd as [| | | | | |its]; simpl; try discriminate.
    destruct (for_each gather_iteration its m) as [m1|e] eqn:H1; simpl;
      [|discriminate].
    intros Hrest kv [<-|Hkv]; [|now apply (IH _ Hrest)].
    exists its. split; [reflexivity|]. simpl.
    clear Hrest IH. revert m H1.
    induction its as [|[it ms] its IHits]; intros m H1 kv' Hin; [destruct Hin|].
    simpl in H1. destruct ms as [| | | | | |mits]; simpl in H1; try discriminate.
    destruct Hin as [<-|Hin]; [now exists mits|].
    now apply (IHits _ H1).
Qed.

Section AggregatorFacts.
Variable add_reduce : list float -> float.


Lemma scene_metric_body (metrics : dict string (list pyval)) :
  (forall metric vs, In (metric, vs) metrics -> vs <> []) ->
  forall a kv, In kv metrics ->
    (scene_metric add_reduce) a kv =
    (w <- (scene_block add_reduce) (snd kv) ;; Ok (dict_set (fst kv) w a)).
Proof.
  intros Hne a [metric vs] Hin. simpl.
  destruct vs as [|v vs]; [|reflexivity].
  now elim (Hne metric [] Hin).
Qed.

Lemma scene_iteration_body a (kv : string * dict string (list pyval)) :
  (scene_iteration add_reduce) a kv =
  (w <- for_each (scene_metric add_reduce) (snd kv) [] ;; Ok (dict_set (fst kv) w a)).
Proof. now destruct kv. Qed.

(** The second loop of [compute_scene_statistics]: one block per stored
    sequence. *)
Lemma scene_stats_get2 m stats label metric :
  wf_metrics m ->
  for_each (scene_iteration add_reduce) m [] = Ok stats ->
  match get2 label metric m with
  | Some vs => exists blk, (scene_block add_reduce) vs = Ok blk /\
                           get2 label metric stats = Some blk
  | None => get2 label metric stats = None
  end.
Proof.
  intros [Hnd Hwf] Hstats.
  pose proof (for_each_fill (fun ms => for_each (scene_metric add_reduce) ms [])
                (scene_iteration add_reduce) m [] stats
                (fun a kv _ => scene_iteration_body a kv) Hnd Hstats label)
    as Hl.
  unfold get2.
  destruct (dict_get label m) as [inner|] eqn:Hg.
  - destruct Hl as (w & Hw & ->).
    apply dict_get_in in Hg. destruct (Hwf _ _ Hg) as [Hnd' Hne].
    pose proof (for_each_fill (scene_block add_reduce) (scene_metric add_reduce) inner [] w
                  (scene_metric_body inner Hne) Hnd' Hw metric) as Hm.
    destruct (dict_get metric inner) as [vs|]; exact Hm.
  - now rewrite Hl.
Qed.

(** It raises only what [(scene_block add_reduce)] raises. *)
Lemma scene_stats_raise m e :
  wf_metrics m ->
  for_each (scene_iteration add_reduce) m [] = Raise e ->
  exists label metric vs,
    get2 label metric m = Some vs /\ (scene_block add_reduce) vs = Raise e.
Proof.
  intros [Hnd Hwf] Hr.
  destruct (for_each_fill_raise (fun ms => for_each (scene_metric add_reduce) ms [])
              (scene_iteration add_reduce) m [] e
              (fun a kv _ => scene_iteration_body a kv) Hr)
    as ([label inner] & Hin & Hinner).
  simpl in Hinner. destruct (Hwf _ _ Hin) as [Hnd' Hne].
  destruct (for_each_fill_raise (scene_block add_reduce) (scene_metric add_reduce) inner [] e
              (scene_metric_body inner Hne) Hinner)
    as ([metric vs] & Hin' & Hvs).
  exists label, metric, vs. split; [|exact Hvs].
  unfold get2. rewrite (in_dict_get _ _ _ Hnd Hin).
  now apply in_dict_get.
Qed.

Lemma scene_stats_ok m :
  wf_metrics m ->
  (forall label metric vs,
     get2 label metric m = Some vs -> exists blk, (scene_block add_reduce) vs = Ok blk) ->
  exists stats, for_each (scene_iteration add_reduce) m [] = Ok stats.
Proof.
  intros Hwf Hok.
  destruct (for_each (scene_iteration add_reduce) m []) as [stats|e] eqn:Hs;
    [now exists stats|].
  destruct (scene_stats_raise m e Hwf Hs) as (label & metric & vs & Hg & Hr).
  destruct (Hok _ _ _ Hg) as [blk Hb]. congruence.
Qed.

(** *** [compute_scene_statistics] as a whole *)

Lemma compute_scene_statistics_get2 rs stats label metric :
  compute_scene_statistics add_reduce rs = Ok stats ->
  match contributions label metric rs with
  | [] => get2 label metric stats = None
  | vs => exists blk, (scene_block add_reduce) vs = Ok blk /\
                      get2 label metric stats = Some blk
  end.
Proof.
  unfold compute_scene_statistics.
  destruct (for_each gather_case rs []) as [m|e] eqn:Hm; simpl;
    [|discriminate].
  intros Hstats.
  assert (Hwf : wf_metrics m)
    by exact (gather_case_wf rs _ _ wf_metrics_nil Hm).
  pose proof (gather_case_values label metric rs _ _ Hm) as Hv.
  simpl in Hv. rewrite <- Hv.
  pose proof (scene_stats_get2 m stats label metric Hwf Hstats) as Hg.
  rewrite (get2_values_at label metric m Hwf) in Hg.
  now destruct (values_at label metric m).
Qed.

Lemma scene_block_count vs blk :
  (scene_block add_reduce) vs = Ok blk ->
  sb_count blk = List.length vs /\
  sb_values blk = Some (tolist (np_array vs)) /\
  exists xs, as_float64 (np_array vs) = Ok xs /\
             List.length xs = List.length vs /\
             sb_mean blk = np_mean add_reduce xs /\
             sb_std blk = np_std add_reduce 0 xs /\
             sb_min blk = np_min xs /\ sb_max blk = np_max xs.
Proof.
  unfold scene_block.
  destruct (as_float64 (np_array vs)) as [xs|e] eqn:Hx; simpl;
    [|discriminate].
  intros [= <-]. simpl. repeat split.
  exists xs. repeat split.
  unfold as_float64 in Hx. simpl in Hx.
  destruct (match vs with [] => _ | _ => _ end);
    try (injection Hx as <-; apply length_map).
  destruct (existsb overflows vs); [discriminate|].
  injection Hx as <-. apply length_map.
Qed.

(** *** [compute_overall_statistics] *)

Lemma gather_means_fold label metric it (metrics : dict string stat_block) :
  forall m,
    values_at label metric (fold_left (gather_means it) metrics m) =
    values_at label metric m ++
    (if String.eqb label it then block_means metric metrics else []).
Proof.
  induction metrics as [|[k blk] metrics IH]; intros m; simpl.
  - destruct (String.eqb label it); now rewrite app_nil_r.
  - rewrite IH. unfold gather_means. rewrite values_at_append_metric.
    destruct (String.eqb label it); simpl; [|reflexivity].
    destruct (String.eqb metric k); simpl; [|reflexivity].
    now rewrite <- app_assoc.
Qed.

Lemma gather_means_wf it (metrics : dict string stat_block) :
  forall m, wf_metrics m -> wf_metrics (fold_left (gather_means it) metrics m).
Proof.
  induction metrics as [|[k blk] metrics IH]; intros m Hm; simpl; [exact Hm|].
  apply IH. now apply wf_metrics_append.
Qed.

Lemma gather_scene_values label metric kv :
  forall m,
    values_at label metric (gather_scene m kv) =
    values_at label metric m ++ scene_means label metric (snd kv).
Proof.
  destruct kv as [scene scene_stats]. simpl.
  induction scene_stats as [|[it metrics] ss IH]; intros m; simpl.
  - now rewrite app_nil_r.
  - rewrite IH, gather_means_fold. now rewrite <- app_assoc.
Qed.

Lemma gather_scene_wf kv m : wf_metrics m -> wf_metrics (gather_scene m kv).
Proof.
  destruct kv as [scene scene_stats]. simpl. revert m.
  induction scene_stats as [|[it metrics] ss IH]; intros m Hm; simpl;
    [exact Hm|].
  apply IH. now apply gather_means_wf.
Qed.

Lemma gather_scenes_values label metric all :
  forall m,
    values_at label metric (fold_left gather_scene all m) =
    values_at label metric m ++ group_means label metric all.
Proof.
  induction all as [|kv all IH]; intros m; simpl.
  - now rewrite app_nil_r.
  - rewrite IH, gather_scene_values. now rewrite <- app_assoc.
Qed.

Lemma gather_scenes_wf all :
  forall m, wf_metrics m -> wf_metrics (fold_left gather_scene all m).
Proof.
  induction all as [|kv all IH]; intros m Hm; simpl; [exact Hm|].
  apply IH. now apply gather_scene_wf.
Qed.

Lemma overall_metric_body (metrics : dict string (list float)) :
  (forall metric vs, In (metric, vs) metrics -> vs <> []) ->
  forall a kv, In kv metrics ->
    Ok ((overall_metric add_reduce) a kv) =
    (w <- Ok ((overall_block add_reduce) (snd kv)) ;; Ok (dict_set (fst kv) w a)).
Proof.
  intros Hne a [metric vs] Hin. simpl.
  destruct vs as [|v vs]; [|reflexivity].
  now elim (Hne metric [] Hin).
Qed.

Lemma overall_iteration_body a (kv : string * dict string (list float)) :
  Ok ((overall_iteration add_reduce) a kv) =
  (w <- Ok (fold_left (overall_metric add_reduce) (snd kv) []) ;;
   Ok (dict_set (fst kv) w a)).
Proof. now destruct kv. Qed.

Lemma overall_stats_get2 m label metric :
  wf_metrics m ->
  get2 label metric (fold_left (overall_iteration add_reduce) m []) =
  option_map (overall_block add_reduce) (get2 label metric m).
Proof.
  intros [Hnd Hwf].
  pose proof (for_each_fill
                (fun ms => Ok (fold_left (overall_metric add_reduce) ms []))
                (fun a kv => Ok ((overall_iteration add_reduce) a kv)) m [] _
                (fun a kv _ => overall_iteration_body a kv) Hnd
                (for_each_pure (overall_iteration add_reduce) m []) label)
    as Hl.
  unfold get2.
  destruct (dict_get label m) as [inner|] eqn:Hg.
  - destruct Hl as (w & [= <-] & ->).
    apply dict_get_in in Hg. destruct (Hwf _ _ Hg) as [Hnd' Hne].
    pose proof (for_each_fill
                  (fun vs => Ok ((overall_block add_reduce) vs))
                  (fun a kv => Ok ((overall_metric add_reduce) a kv)) inner [] _
                  (overall_metric_body inner Hne) Hnd'
                  (for_each_pure (overall_metric add_reduce) inner []) metric)
      as Hm.
    destruct (dict_get metric inner) as [vs|].
    + now destruct Hm as (w & [= <-] & ->).
    + exact Hm.
  - now rewrite Hl.
Qed.

Lemma compute_overall_statistics_get2 all label metric :
  get2 label metric (compute_overall_statistics add_reduce all) =
  match group_means label metric all with
  | [] => None
  | vs => Some ((overall_block add_reduce) vs)
  end.
Proof.
  unfold compute_overall_statistics.
  assert (Hwf : wf_metrics (fold_left gather_scene all []))
    by exact (gather_scenes_wf all _ wf_metrics_nil).
  rewrite overall_stats_get2 by exact Hwf.
  rewrite (get2_values_at _ _ _ Hwf), gather_scenes_values. simpl.
  now destruct (group_means label metric all).
Qed.

End AggregatorFacts.

(** ** Counting groups *)

Lemma flat_map_dict_get {V B} (g : V -> list B) (k : string) (d : dict string V) :
  NoDup (dict_keys d) ->
  flat_map (fun kv : string * V => if String.eqb k (fst kv) then g (snd kv) else []) d =
  match dict_get k d with
  | Some v => g v
  | None => []
  end.
Proof.
  induction d as [|[k0 v0] d IH]; simpl; [reflexivity|].
  intros Hnd. change (NoDup (k0 :: dict_keys d)) in Hnd.
  apply NoDup_cons_iff in Hnd as [Hnotin Hnd].
  rewrite (IH Hnd).
  destruct (String.eqb_spec k k0) as [->|Hne]; [|reflexivity].
  apply dict_get_none in Hnotin. rewrite Hnotin. apply app_nil_r.
Qed.

Lemma scene_means_get2 label metric gs :
  NoDup (dict_keys gs) ->
  (forall it ms, In (it, ms) gs -> NoDup (dict_keys ms)) ->
  scene_means label metric gs =
  match get2 label metric gs with
  | Some blk => [sb_mean blk]
  | None => []
  end.
Proof.
  intros Hnd Hin. unfold scene_means, get2.
  rewrite (flat_map_dict_get (block_means metric) label gs Hnd).
  destruct (dict_get label gs) as [ms|] eqn:Hg; [|reflexivity].
  apply dict_get_in, Hin in Hg. unfold block_means.
  rewrite (flat_map_dict_get (fun blk => [sb_mean blk]) metric ms Hg).
  reflexivity.
Qed.

Lemma group_means_length label metric all :
  unique_keys all ->
  List.length (group_means label metric all) = groups_with label metric all.
Proof.
  unfold group_means, groups_with.
  induction all as [|[g gs] all IH]; intros Hu; simpl; [reflexivity|].
  rewrite length_app, IH by (intros g' gs' Hin; apply (Hu g'); now right).
  destruct (Hu g gs (or_introl eq_refl)) as [Hnd Hin].
  rewrite (scene_means_get2 label metric gs Hnd Hin). unfold has_pair.
  now destruct (get2 label metric gs).
Qed.

Lemma contributions_in label metric v rs :
  In v (contributions label metric rs) <->
  isinstance_int_float v = true /\ reported label metric v rs.
Proof.
  unfold contributions, reported. rewrite in_flat_map. split.
  - intros ([c cd] & Hc & Hv). simpl in Hv.
    destruct cd as [| | | | | |its]; try destruct Hv.
    simpl in Hv. apply in_flat_map in Hv as ([it ms] & Hit & Hv). simpl in Hv.
    destruct (String.eqb_spec label it) as [<-|]; [|destruct Hv].
    destruct ms as [| | | | | |mits]; try destruct Hv.
    simpl in Hv. apply in_flat_map in Hv as ([k w] & Hk & Hv). simpl in Hv.
    destruct (String.eqb_spec metric k) as [<-|]; [|destruct Hv].
    destruct (isinstance_int_float w) eqn:Hw; [|destruct Hv].
    destruct Hv as [<-|[]]. split; [exact Hw|].
    now exists c, its, mits.
  - intros (Hv & c & its & mits & Hc & Hit & Hk).
    exists (c, PDict its). split; [exact Hc|]. simpl.
    apply in_flat_map. exists (label, PDict mits). split; [exact Hit|]. simpl.
    rewrite String.eqb_refl. apply in_flat_map.
    exists (metric, v). split; [exact Hk|]. simpl.
    rewrite String.eqb_refl, Hv. now left.
Qed.

Lemma as_float64_ok vs xs :
  as_float64 (np_array vs) = Ok xs -> xs = map to_float64 vs.
Proof.
  unfold as_float64. simpl.
  destruct (match vs with [] => _ | _ => _ end); try (now intros [= <-]).
  destruct (existsb overflows vs); [discriminate|now intros [= <-]].
Qed.

(** ** Native arrays *)

Lemma promote_native a b :
  a <> DObject -> b <> DObject -> promote a b <> DObject.
Proof. destruct a, b; simpl; congruence. Qed.

Lemma scalar_dtype_native v :
  isinstance_int_float v = true -> native_number v = true ->
  scalar_dtype v <> DObject.
Proof.
  destruct v as [|b|z|f|s|l|d]; cbn [isinstance_int_float native_number
    scalar_dtype]; try discriminate.
  unfold native_int. intros _ Hz.
  apply andb_prop in Hz as [Hlo Hhi].
  apply Z.leb_le in Hlo. apply Z.ltb_lt in Hhi.
  destruct ((- 2 ^ 63 <=? z) && (z <? 2 ^ 63))%Z eqn:H1; [discriminate|].
  destruct ((0 <=? z) && (z <? 2 ^ 64))%Z eqn:H2; [discriminate|].
  exfalso.
  apply andb_false_iff in H1. apply andb_false_iff in H2.
  rewrite Z.leb_gt, Z.ltb_ge in H1, H2.
  change (2 ^ 63)%Z with 9223372036854775808%Z in *.
  change (2 ^ 64)%Z with 18446744073709551616%Z in *.
  lia.
Qed.

Lemma fold_promote_native vs : forall d,
  d <> DObject ->
  forallb isinstance_int_float vs = true ->
  forallb native_number vs = true ->
  fold_left (fun d x => promote d (scalar_dtype x)) vs d <> DObject.
Proof.
  induction vs as [|v vs IH]; intros d Hd Hi Hn; cbn [fold_left]; [exact Hd|].
  cbn [forallb] in Hi, Hn.
  apply andb_prop in Hi as [Hi Hi']. apply andb_prop in Hn as [Hn Hn'].
  apply IH; [|exact Hi'|exact Hn'].
  apply promote_native; [exact Hd|now apply scalar_dtype_native].
Qed.

(** A list of native numbers makes an array of a native element type. *)
Lemma np_array_native vs :
  forallb isinstance_int_float vs = true ->
  forallb native_number vs = true ->
  arr_dtype (np_array vs) <> DObject.
Proof.
  destruct vs as [|v vs]; cbn [np_array arr_dtype]; [discriminate|].
  cbn [forallb]. intros Hi Hn.
  apply andb_prop in Hi as [Hi Hi']. apply andb_prop in Hn as [Hn Hn'].
  apply fold_promote_native; [now apply scalar_dtype_native|exact Hi'|exact Hn'].
Qed.

Lemma as_float64_native vs :
  forallb isinstance_int_float vs = true ->
  forallb native_number vs = true ->
  as_float64 (np_array vs) = Ok (map to_float64 vs).
Proof.
  intros Hi Hn. pose proof (np_array_native vs Hi Hn) as Hd.
  unfold as_float64. change (arr_items (np_array vs)) with vs.
  now destruct (arr_dtype (np_array vs)).
Qed.

Lemma contributions_instances label metric rs :
  forallb isinstance_int_float (contributions label metric rs) = true.
Proof.
  apply forallb_forall. intros v Hv.
  now apply contributions_in in Hv.
Qed.

(** On native numbers the second loop raises nothing. *)
Lemma compute_scene_statistics_native add_reduce rs :
  well_shaped rs -> native_numbers rs ->
  exists stats, compute_scene_statistics add_reduce rs = Ok stats.
Proof.
  intros Hs Hnat. unfold compute_scene_statistics.
  destruct (gather_case_total rs [] Hs) as [m Hm]. rewrite Hm. simpl.
  assert (Hwf : wf_metrics m)
    by exact (gather_case_wf rs _ _ wf_metrics_nil Hm).
  apply scene_stats_ok; [exact Hwf|].
  intros label metric vs Hg.
  assert (Hvs : vs = contributions label metric rs).
  { rewrite <- (app_nil_l (contributions label metric rs)).
    change [] with (values_at (V := pyval) label metric []) at 1.
    rewrite <- (gather_case_values label metric rs _ _ Hm).
    unfold values_at. now rewrite Hg. }
  unfold scene_block.
  rewrite as_float64_native
    by (rewrite Hvs; first [apply contributions_instances|apply Hnat]).
  simpl. eauto.
Qed.

(** * The claims *)

(** C1.  The overall count of a (label, metric) pair is the number of groups
    whose statistics contain the pair, each group contributing its mean
    once; in scenario B (two groups of one sub-unit, PSNR 20.0 and 30.0) the
    overall block of (ours_7000, PSNR) has mean 25.0, std 5.0, count 2. *)
Theorem overall_count_is_number_of_groups :
  (forall add_reduce all label metric,
      unique_keys all ->
      List.length (group_means label metric all) = groups_with label metric all /\
      match get2 label metric (compute_overall_statistics add_reduce all) with
      | Some blk =>
          blk = overall_block add_reduce (group_means label metric all) /\
          sb_count blk = groups_with label metric all /\
          (0 < groups_with label metric all)%nat
      | None => groups_with label metric all = 0%nat
      end) /\
  (exists sA sB,
      compute_scene_statistics sequential_sum [(0%Z, psnr_unit 20)] = Ok sA /\
      compute_scene_statistics sequential_sum [(0%Z, psnr_unit 30)] = Ok sB /\
      get2 "ours_7000" "PSNR"
           (compute_overall_statistics sequential_sum
              [("sceneA", sA); ("sceneB", sB)]) =
      Some {| sb_mean := 25; sb_std := 5; sb_min := 20; sb_max := 30;
              sb_count := 2; sb_values := None |}).
Proof.
  split.
  - intros add_reduce all label metric Hu.
    pose proof (group_means_length label metric all Hu) as Hlen.
    split; [exact Hlen|].
    rewrite compute_overall_statistics_get2.
    destruct (group_means label metric all) as [|x xs] eqn:Hg.
    + now rewrite <- Hlen.
    + rewrite <- Hlen. simpl. repeat split. lia.
  - eexists. eexists. split; [vm_compute; reflexivity|].
    split; [vm_compute; reflexivity|]. vm_compute. reflexivity.
Qed.

Lemma unique_keys_scenario_B :
  unique_keys
    [("sceneA", [("ours_7000", [("PSNR", overall_block sequential_sum [20%float])])]);
     ("sceneB", [("ours_7000", [("PSNR", overall_block sequential_sum [30%float])])])].
Proof.
  intros g gs [[= <- <-]|[[= <- <-]|[]]]; (split; [repeat constructor; simpl; tauto|]);
    intros it ms [[= <- <-]|[]]; repeat constructor; simpl; tauto.
Defined.

Lemma overall_count_is_number_of_groups_witness :
  unique_keys
    [("sceneA", [("ours_7000", [("PSNR", overall_block sequential_sum [20%float])])]);
     ("sceneB", [("ours_7000", [("PSNR", overall_block sequential_sum [30%float])])])] /\
  List.length
    (group_means "ours_7000" "PSNR"
       [("sceneA", [("ours_7000", [("PSNR", overall_block sequential_sum [20%float])])]);
        ("sceneB", [("ours_7000", [("PSNR", overall_block sequential_sum [30%float])])])]) =
  groups_with "ours_7000" "PSNR"
    [("sceneA", [("ours_7000", [("PSNR", overall_block sequential_sum [20%float])])]);
     ("sceneB", [("ours_7000", [("PSNR", overall_block sequential_sum [30%float])])])].
Proof.
  split; [exact unique_keys_scenario_B|].
  exact (proj1 (proj1 overall_count_is_number_of_groups sequential_sum _
                  "ours_7000" "PSNR" unique_keys_scenario_B)).
Defined.

(** C2.  Every (label, metric) entry of the per-scene statistics and of the
    overall statistics has count at least 1; a pair with no contributor is
    absent. *)
Theorem no_zero_count_block (add_reduce : list float -> float) :
  (forall rs stats label metric,
      compute_scene_statistics add_reduce rs = Ok stats ->
      match get2 label metric stats with
      | Some blk => (1 <= sb_count blk)%nat /\
                    sb_count blk = List.length (contributions label metric rs)
      | None => contributions label metric rs = []
      end) /\
  (forall all label metric,
      match get2 label metric (compute_overall_statistics add_reduce all) with
      | Some blk => (1 <= sb_count blk)%nat /\
                    sb_count blk = List.length (group_means label metric all)
      | None => group_means label metric all = []
      end).
Proof.
  split.
  - intros rs stats label metric Hc.
    pose proof (compute_scene_statistics_get2 add_reduce rs stats label metric Hc)
      as Hg.
    destruct (contributions label metric rs) as [|v vs].
    + now rewrite Hg.
    + destruct Hg as (blk & Hb & ->).
      apply scene_block_count in Hb as (-> & _). simpl. split; [lia|reflexivity].
  - intros all label metric. rewrite compute_overall_statistics_get2.
    destruct (group_means label metric all); simpl; [reflexivity|].
    split; [lia|reflexivity].
Qed.

Lemma no_zero_count_block_witness :
  compute_scene_statistics sequential_sum scene_A_results =
    Ok [("ours_7000",
         [("PSNR", {| sb_mean := 21; sb_std := 1; sb_min := 20; sb_max := 22;
                      sb_count := 2;
                      sb_values := Some [PFloat 20; PFloat 22] |})])] /\
  match get2 "ours_7000" "PSNR"
          [("ours_7000",
            [("PSNR", {| sb_mean := 21; sb_std := 1; sb_min := 20; sb_max := 22;
                         sb_count := 2;
                         sb_values := Some [PFloat 20; PFloat 22] |})])] with
  | Some blk => (1 <= sb_count blk)%nat /\
                sb_count blk =
                List.length (contributions "ours_7000" "PSNR" scene_A_results)
  | None => contributions "ours_7000" "PSNR" scene_A_results = []
  end.
Proof.
  assert (H : compute_scene_statistics sequential_sum scene_A_results =
    Ok [("ours_7000",
         [("PSNR", {| sb_mean := 21; sb_std := 1; sb_min := 20; sb_max := 22;
                      sb_count := 2;
                      sb_values := Some [PFloat 20; PFloat 22] |})])])
    by (vm_compute; reflexivity).
  split; [exact H|].
  exact (proj1 (no_zero_count_block sequential_sum) scene_A_results _
           "ours_7000" "PSNR" H).
Defined.



(** C4 (amended).  On a directory name that contains the delimiter, with [g]
    the text before its first occurrence and [r] the text after it, the
    locator recognises the directory exactly when [int] accepts [r], and
    then takes [g] verbatim as the group key and the integer, negative ones
    included, as the sub-unit id; a directory whose suffix is not accepted
    is skipped without a trace in the collection. *)
Theorem suffix_must_parse_as_integer (g r : string) :
  PyStr.contains "_case" g = false ->
  extract_scene_and_case (g ++ "_case" ++ r)%string =
    option_map (pair g) (PyStr.int r) /\
  (PyStr.int r = None ->
   forall l1 d l2,
     fst (collect_all_results (l1 ++ ((g ++ "_case" ++ r)%string, d) :: l2)) =
     fst (collect_all_results (l1 ++ l2))).
Proof.
  intros Hg. pose proof (extract_scene_and_case_first g r Hg) as He.
  split; [exact He|].
  intros Hr l1 d l2. apply collect_all_results_skip. cbn [fst].
  now rewrite He, Hr.
Qed.

Lemma suffix_must_parse_as_integer_witness :
  PyStr.contains "_case" "sceneB" = false /\
  extract_scene_and_case "sceneB_caseX" = None /\
  (PyStr.int "X" = None ->
   forall l1 d l2,
     fst (collect_all_results (l1 ++ ("sceneB_caseX", d) :: l2)) =
     fst (collect_all_results (l1 ++ l2))).
Proof.
  split; [reflexivity|].
  exact (suffix_must_parse_as_integer "sceneB" "X" eq_refl).
Defined.

(** C4 as stated fails: a negative suffix parses, and the directory is
    collected under a negative sub-unit id. *)
Lemma negative_suffix_is_accepted :
  extract_scene_and_case "sceneA_case-1" = Some ("sceneA", (-1)%Z) /\
  fst (collect_all_results [("sceneA_case-1", results_file (psnr_unit 20))]) =
    [("sceneA", [((-1)%Z, psnr_unit 20)])] /\
  ~ (forall name g z,
        extract_scene_and_case name = Some (g, z) -> (0 <= z)%Z).
Proof.
  split; [reflexivity|]. split; [reflexivity|].
  intros H. specialize (H "sceneA_case-1" "sceneA" (-1)%Z eq_refl). lia.
Qed.

(** C6.  The collection holds only units that were loaded from the
    [results.json] of a recognised directory, and it does not depend on the
    order in which the directories are enumerated. *)
Theorem collection_independent_of_enumeration (l1 l2 : list (string * node)) :
  NoDup (map fst l1) -> Permutation l1 l2 ->
  collect_all_results l1 = collect_all_results l2 /\
  (forall g cases c v,
      In (g, cases) (fst (collect_all_results l1)) -> In (c, v) cases ->
      exists name d,
        In (name, d) l1 /\ node_is_dir d = true /\
        extract_scene_and_case name = Some (g, c) /\
        dict_get "results.json" (entries_of d) = Some (NFile (Parsed v)) /\
        v <> PNone).
Proof.
  intros Hnd Hp. split.
  - unfold collect_all_results.
    now rewrite (scene_case_dirs_order_independent l1 l2 Hnd Hp).
  - intros g cases c v Hin Hcv.
    destruct (collect_all_results_sound l1 g cases c v Hin Hcv)
      as ([name d] & Hd & Hdir & Hu).
    apply unit_of_parsed in Hu as (He & Hf & Hv).
    now exists name, d.
Qed.

Lemma collection_independent_of_enumeration_witness :
  NoDup (map fst scenario_A) /\
  Permutation scenario_A (rev scenario_A) /\
  collect_all_results scenario_A = collect_all_results (rev scenario_A).
Proof.
  assert (Hnd : NoDup (map fst scenario_A)).
  { simpl. constructor; [|constructor; [|constructor]]; simpl.
    - intros [H|[]]. discriminate H.
    - intros []. }
  assert (Hp : Permutation scenario_A (rev scenario_A))
    by apply Permutation_rev.
  split; [exact Hnd|]. split; [exact Hp|].
  exact (proj1 (collection_independent_of_enumeration _ _ Hnd Hp)).
Defined.

(** C8.  When two directories of the sorted list yield the same (group key,
    sub-unit id) and both load, the later one is the unit the collection
    holds: the assignment overwrites, and nothing is raised. *)
Theorem last_write_wins (listing before between after : list (string * node))
    (d d' : string * node) (g : string) (c : Z) (v v' : pyval) :
  scene_case_dirs listing = before ++ d :: between ++ d' :: after ->
  unit_of d = Some (g, c, v) ->
  unit_of d' = Some (g, c, v') ->
  (forall x, In x after -> forall w, unit_of x <> Some (g, c, w)) ->
  collection_get g c (fst (collect_all_results listing)) = Some v'.
Proof.
  intros Hdirs Hd Hd' Hafter.
  rewrite collect_all_results_get, Hdirs.
  change (before ++ d :: between ++ d' :: after)
    with (before ++ (d :: between) ++ [d'] ++ after).
  rewrite !last_unit_app. rewrite (last_unit_none g c after) by exact Hafter.
  unfold last_unit at 1. simpl. rewrite Hd'.
  now rewrite String.eqb_refl, Z.eqb_refl.
Qed.

Lemma last_write_wins_witness :
  scene_case_dirs duplicate_units =
    [] ++ ("a_case01", results_file (psnr_unit 20)) ::
    [] ++ ("a_case1", results_file (psnr_unit 22)) :: [] /\
  collection_get "a" 1 (fst (collect_all_results duplicate_units)) =
    Some (psnr_unit 22).
Proof.
  split; [reflexivity|].
  apply (last_write_wins duplicate_units [] [] []
           ("a_case01", results_file (psnr_unit 20))
           ("a_case1", results_file (psnr_unit 22)) "a" 1%Z
           (psnr_unit 20) (psnr_unit 22)).
  - reflexivity.
  - reflexivity.
  - reflexivity.
  - intros x [].
Defined.

(** C7 (amended).  The sequence behind a (label, metric) block holds exactly
    the reported values that are a [bool], an [int] or a [float]: each such
    value is in the sequence when, and only when, some sub-unit reports it,
    and [None], strings, lists and dicts never are.  They are dropped
    without an exception and the rest of the sub-unit is processed: on
    well-shaped input of native numbers the function returns, and a block
    holds the whole sequence. *)
Theorem type_filter_keeps_int_float_bool
    (add_reduce : list float -> float) (rs : dict Z pyval) :
  well_shaped rs ->
  native_numbers rs ->
  exists stats,
    compute_scene_statistics add_reduce rs = Ok stats /\
    forall label metric,
      let values := contributions label metric rs in
      (forall b, In (PBool b) values <-> reported label metric (PBool b) rs) /\
      (forall z, In (PInt z) values <-> reported label metric (PInt z) rs) /\
      (forall f, In (PFloat f) values <-> reported label metric (PFloat f) rs) /\
      ~ In PNone values /\
      (forall s, ~ In (PStr s) values) /\
      (forall l, ~ In (PList l) values) /\
      (forall d, ~ In (PDict d) values) /\
      match get2 label metric stats with
      | Some blk =>
          sb_count blk = List.length values /\
          sb_values blk = Some (tolist (np_array values)) /\
          values <> []
      | None => values = []
      end.
Proof.
  intros Hs Hnat.
  destruct (compute_scene_statistics_native add_reduce rs Hs Hnat)
    as [stats Hc].
  exists stats. split; [exact Hc|].
  intros label metric values. subst values.
  pose proof (contributions_in label metric) as Hin.
  refine (conj _ (conj _ (conj _ (conj _ (conj _ (conj _ (conj _ _))))))).
  - intros b. rewrite Hin. cbn [isinstance_int_float]. tauto.
  - intros z. rewrite Hin. cbn [isinstance_int_float]. tauto.
  - intros f. rewrite Hin. cbn [isinstance_int_float]. tauto.
  - rewrite Hin. cbn [isinstance_int_float]. now intros [? _].
  - intros s. rewrite Hin. cbn [isinstance_int_float]. now intros [? _].
  - intros l. rewrite Hin. cbn [isinstance_int_float]. now intros [? _].
  - intros d. rewrite Hin. cbn [isinstance_int_float]. now intros [? _].
  - pose proof (compute_scene_statistics_get2 add_reduce rs stats label metric
                  Hc) as Hg.
    destruct (contributions label metric rs) as [|v vs].
    + now rewrite Hg.
    + destruct Hg as (blk & Hb & ->).
      apply scene_block_count in Hb as (Hn & Hv & _).
      repeat split; [exact Hn|exact Hv|discriminate].
Qed.

Lemma well_shaped_mixed_unit : well_shaped mixed_unit.
Proof.
  intros kv [<-|[]]. eexists. split; [reflexivity|].
  intros kv [<-|[]]. eexists. reflexivity.
Defined.

Lemma native_numbers_mixed_unit : native_numbers mixed_unit.
Proof.
  intros label metric. unfold contributions, mixed_unit. simpl.
  destruct (String.eqb label "ours_7000"); [|reflexivity].
  simpl.
  destruct (String.eqb metric "PSNR"), (String.eqb metric "note"),
    (String.eqb metric "SSIM"), (String.eqb metric "flag"); reflexivity.
Defined.

Lemma type_filter_keeps_int_float_bool_witness :
  well_shaped mixed_unit /\
  native_numbers mixed_unit /\
  exists stats,
    compute_scene_statistics sequential_sum mixed_unit = Ok stats /\
    forall label metric,
      let values := contributions label metric mixed_unit in
      (forall b, In (PBool b) values <->
                 reported label metric (PBool b) mixed_unit) /\
      (forall z, In (PInt z) values <->
                 reported label metric (PInt z) mixed_unit) /\
      (forall f, In (PFloat f) values <->
                 reported label metric (PFloat f) mixed_unit) /\
      ~ In PNone values /\
      (forall s, ~ In (PStr s) values) /\
      (forall l, ~ In (PList l) values) /\
      (forall d, ~ In (PDict d) values) /\
      match get2 label metric stats with
      | Some blk =>
          sb_count blk = List.length values /\
          sb_values blk = Some (tolist (np_array values)) /\
          values <> []
      | None => values = []
      end.
Proof.
  split; [exact well_shaped_mixed_unit|].
  split; [exact native_numbers_mixed_unit|].
  exact (type_filter_keeps_int_float_bool sequential_sum mixed_unit
           well_shaped_mixed_unit native_numbers_mixed_unit).
Defined.

(** C7 as stated fails: JSON [true] is not a number, yet it passes the
    filter and is counted as 1. *)
Lemma boolean_passes_the_filter :
  is_json_number (PBool true) = false /\
  compute_scene_statistics sequential_sum [(0%Z, bool_unit)] =
    Ok [("ours_7000",
         [("PSNR", {| sb_mean := 1; sb_std := 0; sb_min := 1; sb_max := 1;
                      sb_count := 1; sb_values := Some [PBool true] |})])] /\
  ~ (forall v label metric rs,
        In v (contributions label metric rs) -> is_json_number v = true).
Proof.
  split; [reflexivity|]. split; [vm_compute; reflexivity|].
  intros H.
  specialize (H (PBool true) "ours_7000" "PSNR" [(0%Z, bool_unit)]).
  simpl in H. discriminate H. now left.
Qed.

(** ** The file system *)

Lemma unique_names_dir es :
  unique_names (NDir es) <->
  NoDup (map fst es) /\ forall k c, In (k, c) es -> unique_names c.
Proof.
  simpl. apply and_iff_compat_l.
  induction es as [|[k0 c0] es IH]; simpl.
  - split; [intros _ k c []|trivial].
  - rewrite IH. split.
    + intros [H0 H] k c [[= <- <-]|Hin]; [exact H0|now apply (H k)].
    + intros H. split; [apply (H k0); now left|].
      intros k c Hin. apply (H k). now right.
Qed.

Lemma unique_names_fresh p : unique_names (fresh_dirs p).
Proof.
  induction p as [|c p IH]; simpl; [split; [constructor|trivial]|].
  split; [|now split].
  constructor; [intros []|constructor].
Qed.

Lemma unique_names_lookup p : forall fs n,
  unique_names fs -> lookup_path p fs = Some n -> unique_names n.
Proof.
  induction p as [|c p IH]; intros fs n Hu; simpl.
  - now intros [= <-].
  - destruct fs as [f|es]; [discriminate|].
    destruct (dict_get c es) as [child|] eqn:Hg; [|discriminate].
    apply IH. apply unique_names_dir in Hu as [_ Hc].
    apply dict_get_in in Hg. now apply (Hc c).
Qed.

Lemma unique_names_mkdir p : forall fs fs1,
  unique_names fs -> mkdir_parents_exist_ok p fs = Ok fs1 -> unique_names fs1.
Proof.
  induction p as [|c p IH]; intros fs fs1 Hu; simpl.
  - destruct fs; [discriminate|]. now intros [= <-].
  - destruct fs as [f|es]; [discriminate|].
    pose proof Hu as Hu'. apply unique_names_dir in Hu' as [Hnd Hc].
    destruct (dict_get c es) as [child|] eqn:Hg.
    + destruct (mkdir_parents_exist_ok p child) as [child'|e] eqn:Hm; simpl;
        [|discriminate].
      intros [= <-]. apply unique_names_dir. split.
      * now apply dict_set_nodup.
      * intros k n Hin. apply in_dict_set in Hin as [[-> ->]|Hin].
        -- apply (IH child); [|exact Hm].
           apply dict_get_in in Hg. now apply (Hc c).
        -- now apply (Hc k).
    + intros [= <-]. rewrite <- (dict_set_fresh c (fresh_dirs p) es Hg).
      apply unique_names_dir. split.
      * now apply dict_set_nodup.
      * intros k n Hin. apply in_dict_set in Hin as [[-> ->]|Hin].
        -- apply unique_names_fresh.
        -- now apply (Hc k).
Qed.

Lemma lookup_fresh_dirs r : forall p,
  lookup_path r (fresh_dirs p) = None \/
  exists q, lookup_path r (fresh_dirs p) = Some (fresh_dirs q).
Proof.
  induction r as [|c r IH]; intros p; simpl.
  - right. now exists p.
  - destruct p as [|c' p]; simpl; [now left|].
    destruct (String.eqb c c'); [apply IH|now left].
Qed.

(** After [mkdir] the directory exists. *)
Lemma mkdir_is_dir p : forall fs fs1,
  mkdir_parents_exist_ok p fs = Ok fs1 -> is_dir p fs1 = true.
Proof.
  unfold is_dir.
  induction p as [|c p IH]; intros fs fs1; simpl.
  - destruct fs; [discriminate|]. now intros [= <-].
  - destruct fs as [f|es]; [discriminate|].
    destruct (dict_get c es) as [child|] eqn:Hg.
    + destruct (mkdir_parents_exist_ok p child) as [child'|e] eqn:Hm; simpl;
        [|discriminate].
      intros [= <-]. rewrite dict_get_set_same. now apply (IH child).
    + intros [= <-]. rewrite <- (dict_set_fresh c (fresh_dirs p) es Hg).
      rewrite dict_get_set_same. clear. induction p; simpl; [reflexivity|].
      now rewrite String.eqb_refl.
Qed.

(** A directory that was missing is created empty. *)
Lemma mkdir_creates_empty p : forall fs fs1,
  lookup_path p fs = None ->
  mkdir_parents_exist_ok p fs = Ok fs1 ->
  lookup_path p fs1 = Some (NDir []).
Proof.
  induction p as [|c p IH]; intros fs fs1; simpl; [discriminate|].
  destruct fs as [f|es]; [discriminate|].
  destruct (dict_get c es) as [child|] eqn:Hg.
  - intros Hl.
    destruct (mkdir_parents_exist_ok p child) as [child'|e] eqn:Hm; simpl;
      [|discriminate].
    intros [= <-]. rewrite dict_get_set_same. now apply (IH child).
  - intros _ [= <-]. rewrite <- (dict_set_fresh c (fresh_dirs p) es Hg).
    rewrite dict_get_set_same. clear. induction p; simpl; [reflexivity|].
    now rewrite String.eqb_refl.
Qed.

(** [mkdir] of one path leaves any other path as it was, unless it creates
    it, and then as a chain of new directories. *)
Lemma mkdir_elsewhere p : forall r fs fs1,
  is_dir r fs = false ->
  mkdir_parents_exist_ok p fs = Ok fs1 ->
  is_dir r fs1 = false \/ exists q, lookup_path r fs1 = Some (fresh_dirs q).
Proof.
  induction p as [|c p IH]; intros r fs fs1 Hr; simpl.
  - destruct fs; [discriminate|]. intros [= <-]. now left.
  - destruct fs as [f|es]; [discriminate|].
    destruct r as [|c2 r]; [discriminate|].
    unfold is_dir in *. simpl in Hr.
    destruct (dict_get c es) as [child|] eqn:Hg.
    + destruct (mkdir_parents_exist_ok p child) as [child'|e] eqn:Hm; simpl;
        [|discriminate].
      intros [= <-]. simpl.
      destruct (String.eqb_spec c2 c) as [->|Hne].
      * rewrite dict_get_set_same. rewrite Hg in Hr.
        exact (IH r child child' Hr Hm).
      * rewrite dict_get_set_other by exact Hne. now left.
    + intros [= <-]. rewrite <- (dict_set_fresh c (fresh_dirs p) es Hg). simpl.
      destruct (String.eqb_spec c2 c) as [->|Hne].
      * rewrite dict_get_set_same.
        destruct (lookup_fresh_dirs r p) as [->|[q ->]]; [now left|].
        right. now exists q.
      * rewrite dict_get_set_other by exact Hne. now left.
Qed.

Lemma unit_of_fresh_dirs c q : unit_of (c, fresh_dirs q) = None.
Proof.
  unfold unit_of. cbn [fst snd].
  destruct (extract_scene_and_case c) as [[g z]|]; [|reflexivity].
  destruct q as [|c' q]; [reflexivity|].
  cbn [fresh_dirs entries_of dict_get].
  destruct (key_eqb "results.json" c'); [|reflexivity].
  now destruct q.
Qed.

(** Scanning directories that [mkdir] has just created finds no unit. *)
Lemma collect_fresh_dirs readdir q :
  (forall l, Permutation (readdir l) l) ->
  fst (collect_all_results (readdir (entries_of (fresh_dirs q)))) = [].
Proof.
  intros Hperm. unfold collect_all_results. simpl.
  assert (Hl : readdir (entries_of (fresh_dirs q)) = entries_of (fresh_dirs q)).
  { destruct q as [|c q]; simpl.
    - apply Permutation_nil. symmetry. apply Hperm.
    - apply Permutation_length_1_inv. symmetry. apply Hperm. }
  rewrite Hl.
  destruct q as [|c q]; [reflexivity|].
  unfold scene_case_dirs. cbn [fresh_dirs entries_of filter fst snd].
  destruct (node_is_dir (fresh_dirs q) && PyStr.contains "_case" c);
    [|reflexivity].
  cbn [sorted sorted_insert fold_left].
  rewrite collect_step_results, unit_of_fresh_dirs. reflexivity.
Qed.

(** ** [main] *)

Lemma collect_step_printed st d :
  forallb (fun e => negb (is_not_found e)) (printed st) = true ->
  forallb (fun e => negb (is_not_found e)) (printed (collect_step st d)) = true.
Proof.
  intros Hst. unfold collect_step. destruct d as [name n].
  destruct (extract_scene_and_case name) as [[g c]|]; [|exact Hst].
  destruct (dict_get "results.json" (entries_of n)) as [f|]; simpl.
  - destruct (load_results_json f) as [v [|]];
      destruct (is_None v); simpl; rewrite ?forallb_app, ?Hst; reflexivity.
  - now rewrite forallb_app, Hst.
Qed.

Lemma collect_all_results_printed listing :
  forallb (fun e => negb (is_not_found e)) (snd (collect_all_results listing))
  = true.
Proof.
  unfold collect_all_results. simpl.
  set (st0 := {| all_results := []; missing_count := 0;
                 printed := [FoundDirs (List.length (scene_case_dirs listing))] |}).
  assert (H : forallb (fun e => negb (is_not_found e))
                (printed (fold_left collect_step (scene_case_dirs listing) st0))
              = true).
  { assert (H0 : forallb (fun e => negb (is_not_found e)) (printed st0) = true)
      by reflexivity.
    revert H0. generalize st0. generalize (scene_case_dirs listing).
    induction l as [|d l IH]; intros st Hst; simpl; [exact Hst|].
    apply IH. now apply collect_step_printed. }
  destruct (0 <? _)%nat; [|exact H].
  now rewrite forallb_app, H.
Qed.

Section MainFacts.
Variable add_reduce : list float -> float.
Variable readdir : list (string * node) -> list (string * node).
Variable args : arguments.
Variable fs : node.

Let results_dir := arg_results_dir args.
Let o := main add_reduce readdir args fs.

Lemma main_endings :
  (exists e, uncaught o = Some e /\ exit_status o = 1%Z /\ fs_after o = fs /\
             written o = []) \/
  (exists fs1,
      fs_after o = fs1 /\
      mkdir_parents_exist_ok
        (match arg_output_dir args with Some p => p | None => results_dir end)
        fs = Ok fs1 /\
      ((is_dir results_dir fs1 = false /\
        o = exited 1 [ErrorNotFound (path_str results_dir)] fs1 []) \/
       (is_dir results_dir fs1 = true /\
        fst (collect_all_results (iterdir readdir results_dir fs1)) = [] /\
        o = exited 1
              (snd (collect_all_results (iterdir readdir results_dir fs1))
               ++ [ErrorNoResults]) fs1 []) \/
       (is_dir results_dir fs1 = true /\
        fst (collect_all_results (iterdir readdir results_dir fs1)) <> [] /\
        ((exists e, uncaught o = Some e /\ exit_status o = 1%Z) \/
         (uncaught o = None /\ exit_status o = 0%Z))))).
Proof.
  subst o results_dir. unfold main.
  destruct (mkdir_parents_exist_ok _ fs) as [fs1|e] eqn:Hmk.
  2: { left. exists e. now repeat split. }
  right. exists fs1.
  destruct (is_dir (arg_results_dir args) fs1) eqn:Hdir; cbn [negb].
  2: { split; [reflexivity|]. split; [reflexivity|]. left. now split. }
  destruct (collect_all_results (iterdir readdir (arg_results_dir args) fs1))
    as [all out] eqn:Hcol. cbn [fst snd].
  destruct all as [|kv all].
  { split; [reflexivity|]. split; [reflexivity|]. right. left. now repeat split. }
  destruct (for_each (scene_stats_step add_reduce) (kv :: all) [])
    as [scene_stats|e] eqn:Hst.
  2: { split; [reflexivity|]. split; [reflexivity|]. right. right.
       repeat split; [discriminate|]. left. now exists e. }
  destruct (existsb (format_eqb Json) (arg_formats args));
    destruct (existsb (format_eqb Csv) (arg_formats args));
    repeat match goal with
           | |- context [open_for_writing ?p ?f] =>
               destruct (open_for_writing p f) as [[]|?e]; simpl
           end;
    (split; [reflexivity|]; split; [reflexivity|]; right; right;
     repeat split; [discriminate|]);
    solve [ left; eexists; split; reflexivity
          | right; split; reflexivity ].
Qed.

End MainFacts.

Lemma collect_all_results_readdir readdir es :
  (forall l, Permutation (readdir l) l) ->
  NoDup (map fst es) ->
  collect_all_results (readdir es) = collect_all_results es.
Proof.
  intros Hperm Hnd. unfold collect_all_results.
  rewrite (scene_case_dirs_order_independent es (readdir es) Hnd);
    [reflexivity|].
  symmetry. apply Hperm.
Qed.

Lemma unique_names_entries n : unique_names n -> NoDup (map fst (entries_of n)).
Proof.
  destruct n as [f|es]; simpl; [constructor|tauto].
Qed.

Lemma iterdir_order_independent readdir1 readdir2 p fs :
  (forall l, Permutation (readdir1 l) l) ->
  (forall l, Permutation (readdir2 l) l) ->
  unique_names fs ->
  collect_all_results (iterdir readdir1 p fs) =
  collect_all_results (iterdir readdir2 p fs).
Proof.
  intros H1 H2 Hu. unfold iterdir.
  destruct (lookup_path p fs) as [n|] eqn:Hl; [|reflexivity].
  pose proof (unique_names_entries n (unique_names_lookup p fs n Hu Hl)) as Hnd.
  now rewrite !collect_all_results_readdir.
Qed.

Lemma stdout_without_not_found add_reduce readdir args fs :
  arg_output_dir args = None ->
  forallb (fun e => negb (is_not_found e))
          (stdout (main add_reduce readdir args fs)) = true.
Proof.
  intros Hout. unfold main. rewrite Hout.
  destruct (mkdir_parents_exist_ok (arg_results_dir args) fs) as [fs1|e] eqn:Hmk;
    [|reflexivity].
  rewrite (mkdir_is_dir _ _ _ Hmk). cbn [negb].
  pose proof (collect_all_results_printed
                (iterdir readdir (arg_results_dir args) fs1)) as Hp.
  destruct (collect_all_results (iterdir readdir (arg_results_dir args) fs1))
    as [all out]. cbn [snd] in Hp.
  destruct all as [|kv all]; [simpl; now rewrite forallb_app, Hp|].
  destruct (for_each (scene_stats_step add_reduce) (kv :: all) []); [|exact Hp].
  destruct (existsb (format_eqb Json) (arg_formats args));
    destruct (existsb (format_eqb Csv) (arg_formats args));
    repeat match goal with
           | |- context [open_for_writing ?p ?f] =>
               destruct (open_for_writing p f) as [[]|?e]; simpl
           end;
    cbn [stdout exited crashed];
    rewrite ?forallb_app, ?Hp; try reflexivity; exact Hp.
Qed.

Lemma plain_order_perm l : Permutation (plain_order l) l.
Proof. apply Permutation_refl. Defined.

Lemma rev_perm (l : list (string * node)) : Permutation (rev l) l.
Proof. symmetry. apply Permutation_rev. Defined.

(** C5 (amended).  A run that no uncaught exception ends exits with status 1
    exactly when the results directory is not a directory or no sub-unit
    was collected, and with status 0 otherwise; a run that an uncaught
    exception ends exits with status 1 as well.  A results directory that
    was missing at the start always gives status 1.  When the run exits
    through one of its two error messages nothing has been written. *)
Theorem exit_status_of_main
    (add_reduce : list float -> float)
    (readdir : list (string * node) -> list (string * node))
    (args : arguments) (fs : node) :
  (forall l, Permutation (readdir l) l) ->
  let o := main add_reduce readdir args fs in
  let results_dir := arg_results_dir args in
  let found :=
    fst (collect_all_results (iterdir readdir results_dir (fs_after o))) in
  (uncaught o = None ->
     (exit_status o = 1%Z <->
        is_dir results_dir (fs_after o) = false \/ found = []) /\
     (exit_status o = 0%Z \/ exit_status o = 1%Z) /\
     (exit_status o = 1%Z ->
        written o = [] /\
        (stdout o = [ErrorNotFound (path_str results_dir)] \/
         stdout o =
           snd (collect_all_results (iterdir readdir results_dir (fs_after o)))
           ++ [ErrorNoResults]))) /\
  (uncaught o <> None -> exit_status o = 1%Z) /\
  (is_dir results_dir fs = false -> exit_status o = 1%Z).
Proof.
  intros Hperm o results_dir found.
  destruct (main_endings add_reduce readdir args fs)
    as [(e & Hu & He & Hfs & Hw)|(fs1 & Hfs & Hmk & Hcase)];
    fold o in Hu, He, Hfs, Hw || fold o in Hfs, Hcase.
  - rewrite Hu, He. repeat split; congruence.
  - subst found. rewrite Hfs. fold results_dir in Hcase, Hmk.
    destruct Hcase as [[Hdir Ho]|[(Hdir & Hnone & Ho)|(Hdir & Hsome & Hend)]].
    + rewrite Ho. simpl. repeat split; auto; congruence.
    + rewrite Ho. simpl. repeat split; auto; congruence.
    + destruct Hend as [(e & Hu & He)|[Hu He]]; rewrite Hu, He.
      * repeat split; congruence.
      * split; [|split]; try congruence.
        -- intros _. split; [|split]; try (intros; discriminate); [|now left].
           split; [discriminate|]. intros [H|H]; congruence.
        -- intros Hmissing. exfalso.
           destruct (mkdir_elsewhere _ results_dir fs fs1 Hmissing Hmk)
             as [H|[q Hq]]; [congruence|].
           apply Hsome. unfold iterdir. rewrite Hq.
           now apply collect_fresh_dirs.
Qed.

Lemma exit_status_of_main_witness :
  (forall l, Permutation (plain_order l) l) /\
  uncaught (main sequential_sum plain_order (both_formats ["out"] None)
                 fs_scenario_B) = None /\
  exit_status (main sequential_sum plain_order (both_formats ["out"] None)
                    fs_scenario_B) = 0%Z /\
  exit_status (main sequential_sum plain_order (both_formats ["nowhere"] None)
                    fs_scenario_B) = 1%Z.
Proof.
  split; [exact plain_order_perm|]. split; [reflexivity|]. split.
  - destruct (proj1 (exit_status_of_main sequential_sum plain_order
                       (both_formats ["out"] None) fs_scenario_B
                       plain_order_perm) eq_refl) as (_ & [H|H] & _).
    + exact H.
    + vm_compute in H. discriminate H.
  - exact (proj2 (proj2 (exit_status_of_main sequential_sum plain_order
                           (both_formats ["nowhere"] None) fs_scenario_B
                           plain_order_perm)) eq_refl).
Defined.

(** C5 as stated fails: a collected [results.json] that is not a mapping
    (here the JSON array [[]]) ends the run with an uncaught AttributeError,
    hence with status 1, although the results directory exists and one
    sub-unit was collected. *)
Lemma malformed_unit_exits_with_1 :
  exit_status (main sequential_sum plain_order (both_formats ["out"] None)
                    fs_malformed) = 1%Z /\
  uncaught (main sequential_sum plain_order (both_formats ["out"] None)
                 fs_malformed) = Some AttributeError /\
  is_dir ["out"] fs_malformed = true /\
  fst (collect_all_results (iterdir plain_order ["out"] fs_malformed)) =
    [("a", [(0%Z, PList [])])] /\
  ~ (forall add_reduce readdir args fs,
        exit_status (main add_reduce readdir args fs) = 1%Z <->
        is_dir (arg_results_dir args) fs = false \/
        fst (collect_all_results (iterdir readdir (arg_results_dir args) fs)) = []).
Proof.
  repeat split; try reflexivity.
  intros H.
  destruct (proj1 (H sequential_sum plain_order (both_formats ["out"] None)
                     fs_malformed) eq_refl) as [H1|H1];
    vm_compute in H1; discriminate H1.
Qed.

(** C9.  Two runs on the same file system give the same outcome, whatever
    the order in which the operating system enumerates the directories in
    each run; in particular the document handed to [json.dump] is the same,
    and so are the bytes written.  Regular files in the results directory,
    such as the output of an earlier run, are not scanned. *)
Theorem runs_are_reproducible
    (add_reduce : list float -> float)
    (readdir1 readdir2 : list (string * node) -> list (string * node))
    (args : arguments) (fs : node) :
  (forall l, Permutation (readdir1 l) l) ->
  (forall l, Permutation (readdir2 l) l) ->
  unique_names fs ->
  main add_reduce readdir1 args fs = main add_reduce readdir2 args fs /\
  (forall json_dumps,
      structured_output json_dumps (main add_reduce readdir1 args fs) =
      structured_output json_dumps (main add_reduce readdir2 args fs)) /\
  (forall l1 name c l2,
      collect_all_results (l1 ++ (name, NFile c) :: l2) =
      collect_all_results (l1 ++ l2)).
Proof.
  intros H1 H2 Hu.
  assert (Heq : main add_reduce readdir1 args fs = main add_reduce readdir2 args fs).
  { unfold main.
    destruct (mkdir_parents_exist_ok _ fs) as [fs1|e] eqn:Hmk; [|reflexivity].
    destruct (is_dir (arg_results_dir args) fs1); [|reflexivity]. cbn [negb].
    rewrite (iterdir_order_independent readdir1 readdir2 _ fs1 H1 H2
               (unique_names_mkdir _ _ _ Hu Hmk)).
    reflexivity. }
  split; [exact Heq|]. split; [intros json_dumps; now rewrite Heq|].
  intros l1 name c l2. unfold collect_all_results, scene_case_dirs.
  now rewrite !filter_app.
Qed.

Lemma unique_names_scenario_B : unique_names fs_scenario_B.
Proof.
  simpl. repeat split; repeat constructor; simpl; intuition discriminate.
Defined.

Lemma runs_are_reproducible_witness :
  (forall l, Permutation (plain_order l) l) /\
  (forall l : list (string * node), Permutation (rev l) l) /\
  unique_names fs_scenario_B /\
  main sequential_sum plain_order (both_formats ["out"] None) fs_scenario_B =
  main sequential_sum (@rev _) (both_formats ["out"] None) fs_scenario_B.
Proof.
  split; [exact plain_order_perm|]. split; [exact rev_perm|].
  split; [exact unique_names_scenario_B|].
  exact (proj1 (runs_are_reproducible sequential_sum plain_order (@rev _)
                  (both_formats ["out"] None) fs_scenario_B
                  plain_order_perm rev_perm unique_names_scenario_B)).
Defined.

(** C10.  Without [--output_dir] the results directory is itself created
    before it is tested: a missing results directory exists, empty, after
    the run, which ends with status 1 through "No results found" and not
    through "Results directory not found"; that message needs an
    [--output_dir]. *)
Theorem missing_root_is_created
    (add_reduce : list float -> float)
    (readdir : list (string * node) -> list (string * node)) :
  (forall l, Permutation (readdir l) l) ->
  (forall args fs fs1,
      arg_output_dir args = None ->
      lookup_path (arg_results_dir args) fs = None ->
      mkdir_parents_exist_ok (arg_results_dir args) fs = Ok fs1 ->
      main add_reduce readdir args fs =
        exited 1 [FoundDirs 0; ErrorNoResults] fs1 [] /\
      lookup_path (arg_results_dir args) fs1 = Some (NDir [])) /\
  (forall args fs msg,
      In (ErrorNotFound msg) (stdout (main add_reduce readdir args fs)) ->
      arg_output_dir args <> None).
Proof.
  intros Hperm. split.
  - intros args fs fs1 Hout Hmissing Hmk.
    pose proof (mkdir_creates_empty _ _ _ Hmissing Hmk) as Hempty.
    split; [|exact Hempty].
    unfold main. rewrite Hout, Hmk, (mkdir_is_dir _ _ _ Hmk). cbn [negb].
    unfold iterdir. rewrite Hempty. cbn [entries_of].
    rewrite (Permutation_nil (Permutation_sym (Hperm []))).
    reflexivity.
  - intros args fs msg Hin Hout.
    pose proof (stdout_without_not_found add_reduce readdir args fs Hout) as Hall.
    rewrite forallb_forall in Hall. specialize (Hall _ Hin). discriminate Hall.
Qed.

Lemma missing_root_is_created_witness :
  (forall l, Permutation (plain_order l) l) /\
  arg_output_dir (both_formats ["nowhere"] None) = None /\
  lookup_path ["nowhere"] fs_scenario_B = None /\
  mkdir_parents_exist_ok ["nowhere"] fs_scenario_B =
    Ok (NDir [("out", NDir scenario_B); ("nowhere", NDir [])]) /\
  main sequential_sum plain_order (both_formats ["nowhere"] None) fs_scenario_B =
    exited 1 [FoundDirs 0; ErrorNoResults]
           (NDir [("out", NDir scenario_B); ("nowhere", NDir [])]) [] /\
  stdout (main sequential_sum plain_order
               (both_formats ["nowhere"] (Some ["elsewhere"])) fs_scenario_B) =
    [ErrorNotFound "nowhere"].
Proof.
  split; [exact plain_order_perm|]. split; [reflexivity|].
  split; [reflexivity|]. split; [reflexivity|]. split; [|reflexivity].
  exact (proj1 (proj1 (missing_root_is_created sequential_sum plain_order
                         plain_order_perm)
                  (both_formats ["nowhere"] None) fs_scenario_B _
                  eq_refl eq_refl eq_refl)).
Defined.

(** * Further properties *)

(** ** Directory names *)

Lemma startswith_app p s t :
  PyStr.startswith p s = true -> PyStr.startswith p (s ++ t)%string = true.
Proof.
  revert s. induction p as [|a p IH]; intros [|b s]; simpl; try easy.
  intros [Hab Hp]%andb_true_iff. now rewrite Hab, IH.
Qed.

Lemma partition_decompose sep s g r :
  PyStr.partition sep s = Some (g, r) -> s = (g ++ sep ++ r)%string.
Proof.
  intros Hp.
  destruct (PyStr.contains sep s) eqn:Hc.
  - destruct (PyStrFacts.contains_decompose sep s Hc) as (g' & r' & Hs & Hp').
    congruence.
  - apply PyStrFacts.partition_none in Hc. congruence.
Qed.

(** The text before the first occurrence does not contain the separator. *)
Lemma partition_first sep s : forall g r,
  sep <> EmptyString ->
  PyStr.partition sep s = Some (g, r) -> PyStr.contains sep g = false.
Proof.
  induction s as [|c s IH]; intros g r Hne; cbn [PyStr.partition].
  - destruct sep; [congruence|]. discriminate.
  - destruct (PyStr.startswith sep (String c s)) eqn:Hs.
    + intros [= <- _]. destruct sep; [congruence|reflexivity].
    + destruct (PyStr.partition sep s) as [[b a]|] eqn:Hp; [|discriminate].
      intros [= <- <-]. cbn [PyStr.contains].
      rewrite (IH b a Hne eq_refl), orb_false_r.
      destruct (PyStr.startswith sep (String c b)) eqn:Hb; [|reflexivity].
      apply (startswith_app _ _ (sep ++ a)%string) in Hb.
      apply partition_decompose in Hp. subst s.
      simpl in Hb. simpl in Hs. congruence.
Qed.

Lemma split_without_separator sep s :
  PyStr.contains sep s = false -> PyStr.split sep s = [s].
Proof.
  intros Hc. apply PyStrFacts.partition_none in Hc. unfold PyStr.split.
  destruct (String.length s); cbn [PyStr.split_fuel]; now rewrite Hc.
Qed.

Lemma extract_scene_and_case_spec (name g : string) (c : Z) :
  extract_scene_and_case name = Some (g, c) <->
  exists r, name = (g ++ "_case" ++ r)%string /\
            PyStr.contains "_case" g = false /\
            PyStr.int r = Some c.
Proof.
  split.
  - intros He.
    destruct (PyStr.contains "_case" name) eqn:Hc.
    + destruct (PyStrFacts.contains_decompose _ _ Hc) as (g' & r & Hs & Hp).
      assert (Hg : PyStr.contains "_case" g' = false)
        by (apply (partition_first "_case" name g' r); [discriminate|exact Hp]).
      rewrite Hs, (extract_scene_and_case_first g' r Hg) in He.
      destruct (PyStr.int r) as [z|] eqn:Hi; [|discriminate].
      injection He as <- <-. now exists r.
    + unfold extract_scene_and_case in He.
      rewrite (split_without_separator _ _ Hc) in He. discriminate.
  - intros (r & -> & Hg & Hi).
    now rewrite (extract_scene_and_case_first g r Hg), Hi.
Qed.

(** X1.  [extract_scene_and_case] recognises a name exactly when it is a
    group key without the delimiter, the delimiter, and a suffix that
    [int] accepts; the key and the integer are what it returns. *)
Theorem extract_scene_and_case_iff (name g : string) (c : Z) :
  extract_scene_and_case name = Some (g, c) <->
  exists r, name = (g ++ "_case" ++ r)%string /\
            PyStr.contains "_case" g = false /\
            PyStr.int r = Some c.
Proof. apply extract_scene_and_case_spec. Qed.

Lemma int_digits_uint (d : Decimal.uint) : forall acc : nat,
  PyStr.int_digits (Z.of_nat acc) (NilEmpty.string_of_uint d) =
  Some (Z.of_nat (Nat.of_uint_acc d acc)).
Proof.
  induction d; intros acc; cbn [NilEmpty.string_of_uint Nat.of_uint_acc];
    [reflexivity|..];
    cbn [PyStr.int_digits]; cbv [PyStr.digit_val PyStr.code];
    cbn -[Z.mul Z.add Z.of_nat Nat.of_uint_acc PyStr.int_digits Nat.tail_mul Z.sub];
    rewrite <- IHd; f_equal; rewrite Nat.tail_mul_spec; lia.
Qed.

Lemma to_uint_not_nil (n : nat) : Nat.to_uint n <> Decimal.Nil.
Proof.
  pose proof (DecimalNat.Unsigned.to_of (Nat.to_uint n)) as H.
  rewrite DecimalNat.Unsigned.of_to in H. rewrite H.
  unfold Decimal.unorm. now destruct (Decimal.nzhead (Nat.to_uint n)).
Qed.

(** [int] reads back what [str] prints. *)
Lemma int_decimal (n : nat) : PyStr.int (decimal n) = Some (Z.of_nat n).
Proof.
  unfold decimal.
  rewrite <- (DecimalNat.Unsigned.of_to n) at 2.
  pose proof (to_uint_not_nil n) as Hnil.
  unfold Nat.of_uint.
  destruct (Nat.to_uint n) as [|d|d|d|d|d|d|d|d|d|d]; [congruence|..];
    cbn [NilEmpty.string_of_uint Nat.of_uint_acc];
    unfold PyStr.int; cbn [PyStr.lstrip];
    match goal with
    | |- context [PyStr.is_space ?c] =>
        change (PyStr.is_space c) with false; cbv iota;
        change (Ascii.eqb c "-") with false;
        change (Ascii.eqb c "+") with false; cbv iota
    end;
    cbn [PyStr.int_unsigned]; cbv [PyStr.digit_val PyStr.code];
    cbn -[Z.of_nat Nat.of_uint_acc PyStr.int_digits Nat.tail_mul];
    rewrite <- int_digits_uint; reflexivity.
Qed.

(** X2.  A directory named by a group key without the delimiter, the
    delimiter and the decimal numeral of [n] is recognised as sub-unit [n]
    of that group. *)
Theorem numbered_directory_is_recognised (g : string) (n : nat) :
  PyStr.contains "_case" g = false ->
  extract_scene_and_case (g ++ "_case" ++ decimal n)%string =
  Some (g, Z.of_nat n).
Proof.
  intros Hg. now rewrite (extract_scene_and_case_first g _ Hg), int_decimal.
Qed.

Lemma numbered_directory_is_recognised_witness :
  PyStr.contains "_case" "scene0686_01" = false /\
  extract_scene_and_case ("scene0686_01" ++ "_case" ++ decimal 125)%string =
  Some ("scene0686_01", 125%Z).
Proof.
  split; [reflexivity|].
  exact (numbered_directory_is_recognised "scene0686_01" 125 eq_refl).
Defined.

(** ** The collection *)

Lemma wf_collection_step st d :
  wf_collection (all_results st) ->
  wf_collection (all_results (collect_step st d)).
Proof.
  intros [Hnd Hin]. rewrite collect_step_results.
  destruct (unit_of d) as [[[g c] v]|]; [|now split].
  split; [now apply dict_set_nodup|].
  intros g' cases Hg.
  apply in_dict_set in Hg as [[-> ->]|Hg]; [|now apply (Hin g')].
  split; [apply dict_set_not_nil|].
  apply dict_set_nodup. unfold dict_get_default.
  destruct (dict_get g (all_results st)) as [cs|] eqn:Hcs; [|constructor].
  apply dict_get_in in Hcs. now apply (Hin g cs).
Qed.

Lemma collect_all_results_wf (listing : list (string * node)) :
  wf_collection (fst (collect_all_results listing)).
Proof.
  unfold collect_all_results. cbn [fst].
  set (st0 := {| all_results := []; missing_count := 0;
                 printed := [FoundDirs (List.length (scene_case_dirs listing))] |}).
  assert (H0 : wf_collection (all_results st0))
    by (split; [constructor|intros ? ? []]).
  revert H0. generalize st0. generalize (scene_case_dirs listing).
  induction l as [|d l IH]; intros st Hst; [exact Hst|].
  apply IH. now apply wf_collection_step.
Qed.

(** X3.  The collection has one entry per group key and, inside a group,
    one per sub-unit id; no group is empty. *)
Theorem collection_is_well_formed (listing : list (string * node)) :
  wf_collection (fst (collect_all_results listing)).
Proof. apply collect_all_results_wf. Qed.

Lemma last_unit_spec g c dirs : forall o,
  (last_unit g c dirs o = o /\
   forall d, In d dirs -> forall w, unit_of d <> Some (g, c, w)) \/
  (exists d w, In d dirs /\ unit_of d = Some (g, c, w) /\
               last_unit g c dirs o = Some w).
Proof.
  induction dirs as [|d0 dirs IH]; intros o.
  - left. split; [reflexivity|intros ? []].
  - unfold last_unit in *. cbn [fold_left].
    destruct (IH (match unit_of d0 with
                  | Some (g', c', v) =>
                      if String.eqb g' g && Z.eqb c' c then Some v else o
                  | None => o
                  end)) as [[Heq Hnone]|(d & w & Hin & Hu & Heq)].
    + destruct (unit_of d0) as [[[g' c'] v]|] eqn:Hu0.
      * destruct (String.eqb_spec g' g) as [->|Hg];
          [destruct (Z.eqb_spec c' c) as [->|Hc]|]; cbn [andb] in Heq.
        -- right. exists d0, v. repeat split; [now left|exact Hu0|exact Heq].
        -- left. split; [exact Heq|].
           intros d [<-|Hd] w; [rewrite Hu0; congruence|now apply Hnone].
        -- left. split; [exact Heq|].
           intros d [<-|Hd] w; [rewrite Hu0; congruence|now apply Hnone].
      * left. split; [exact Heq|].
        intros d [<-|Hd] w; [rewrite Hu0; discriminate|now apply Hnone].
    + right. exists d, w. repeat split; [now right|exact Hu|exact Heq].
Qed.

Lemma unit_of_has_delimiter d g c v :
  unit_of d = Some (g, c, v) -> PyStr.contains "_case" (fst d) = true.
Proof.
  intros Hu. apply unit_of_parsed in Hu as (He & _).
  apply extract_scene_and_case_spec in He as (r & -> & _ & _).
  clear. induction g as [|a g IH]; [reflexivity|].
  change (String a g ++ "_case" ++ r)%string
    with (String a (g ++ "_case" ++ r)%string).
  cbn [PyStr.contains]. rewrite IH. apply orb_true_r.
Qed.

(** X4.  A recognised directory whose [results.json] loaded is represented
    in the collection: its (group key, sub-unit id) is present, and holds
    its value when no other directory of that key loaded another one. *)
Theorem loaded_directory_is_collected
    (listing : list (string * node)) (d : string * node)
    (g : string) (c : Z) (v : pyval) :
  In d listing -> node_is_dir (snd d) = true ->
  unit_of d = Some (g, c, v) ->
  (exists w, collection_get g c (fst (collect_all_results listing)) = Some w) /\
  ((forall d' w, In d' listing -> unit_of d' = Some (g, c, w) -> w = v) ->
   collection_get g c (fst (collect_all_results listing)) = Some v).
Proof.
  intros Hin Hdir Hu. rewrite collect_all_results_get.
  assert (Hd : In d (scene_case_dirs listing)).
  { unfold scene_case_dirs.
    apply (Permutation_in _ (Permutation_sym (sorted_perm fst String.ltb _))).
    apply filter_In. split; [exact Hin|].
    now rewrite Hdir, (unit_of_has_delimiter d g c v Hu). }
  destruct (last_unit_spec g c (scene_case_dirs listing) None)
    as [[_ Hnone]|(d' & w & Hd' & Hu' & Heq)].
  - now elim (Hnone d Hd v).
  - split; [now exists w|].
    intros Hsame. rewrite Heq. f_equal.
    apply (Hsame d' w); [|exact Hu'].
    now apply scene_case_dirs_incl in Hd'.
Qed.

Lemma loaded_directory_is_collected_witness :
  In ("sceneA_case0", results_file (psnr_unit 20)) scenario_A /\
  node_is_dir (results_file (psnr_unit 20)) = true /\
  unit_of ("sceneA_case0", results_file (psnr_unit 20)) =
    Some ("sceneA", 0%Z, psnr_unit 20) /\
  exists w, collection_get "sceneA" 0 (fst (collect_all_results scenario_A)) =
            Some w.
Proof.
  assert (Hin : In ("sceneA_case0", results_file (psnr_unit 20)) scenario_A)
    by (right; left; reflexivity).
  split; [exact Hin|]. split; [reflexivity|]. split; [reflexivity|].
  exact (proj1 (loaded_directory_is_collected scenario_A
                  ("sceneA_case0", results_file (psnr_unit 20))
                  "sceneA" 0%Z (psnr_unit 20) Hin eq_refl eq_refl)).
Defined.

Lemma collect_step_missing st d :
  missing_count (collect_step st d) =
    (missing_count st + (if lacks_results d then 1 else 0))%nat /\
  filter is_missing_event (printed (collect_step st d)) =
    filter is_missing_event (printed st) ++
    (if lacks_results d then [MissingResults (fst d)] else []).
Proof.
  unfold collect_step, lacks_results. destruct d as [name n]. cbn [fst snd].
  destruct (extract_scene_and_case name) as [[g c]|];
    [|now rewrite Nat.add_0_r, app_nil_r].
  destruct (dict_get "results.json" (entries_of n)) as [f|].
  - destruct (load_results_json f) as [v [|]]; destruct (is_None v);
      cbn [missing_count printed];
      rewrite ?filter_app, Nat.add_0_r; cbn [filter is_missing_event];
      now rewrite ?app_nil_r.
  - cbn [missing_count printed]. rewrite filter_app. split; [lia|reflexivity].
Qed.

Lemma collect_fold_missing dirs : forall st,
  missing_count (fold_left collect_step dirs st) =
    (missing_count st + List.length (filter lacks_results dirs))%nat /\
  filter is_missing_event (printed (fold_left collect_step dirs st)) =
    filter is_missing_event (printed st) ++
    map (fun d => MissingResults (fst d)) (filter lacks_results dirs).
Proof.
  induction dirs as [|d dirs IH]; intros st; cbn [fold_left filter].
  - now rewrite Nat.add_0_r, app_nil_r.
  - destruct (IH (collect_step st d)) as [-> ->].
    destruct (collect_step_missing st d) as [-> ->].
    destruct (lacks_results d); cbn [List.length map].
    + rewrite <- app_assoc. split; [lia|reflexivity].
    + rewrite app_nil_r. split; [lia|reflexivity].
Qed.

(** X5.  The locator prints one "Missing" line for each recognised
    directory without a [results.json], in sorted order, followed by the
    tally when there is at least one; a file that exists but does not load
    is not counted as missing. *)
Theorem missing_results_are_tallied (listing : list (string * node)) :
  let missing := filter lacks_results (scene_case_dirs listing) in
  filter is_missing_event (snd (collect_all_results listing)) =
  map (fun d => MissingResults (fst d)) missing ++
  match missing with
  | [] => []
  | _ :: _ => [MissingTally (List.length missing)]
  end.
Proof.
  intros missing. unfold collect_all_results. cbn [snd].
  set (st0 := {| all_results := []; missing_count := 0;
                 printed := [FoundDirs (List.length (scene_case_dirs listing))] |}).
  destruct (collect_fold_missing (scene_case_dirs listing) st0) as [Hn Hp].
  fold missing in Hn, Hp. cbn [missing_count printed st0 filter
    is_missing_event app Nat.add] in Hn, Hp.
  rewrite Hn. destruct missing as [|m ms] eqn:Hm.
  - cbn [List.length Nat.ltb Nat.leb]. now rewrite Hp.
  - cbn [List.length Nat.ltb Nat.leb]. rewrite filter_app, Hp. reflexivity.
Qed.

(** ** The aggregator: exceptions *)

Lemma gather_iteration_raise its : forall m e,
  for_each gather_iteration its m = Raise e -> e = AttributeError.
Proof.
  induction its as [|[it ms] its IH]; intros m e; cbn [for_each];
    [discriminate|].
  destruct ms; cbn [gather_iteration items bind];
    try (now intros [= <-]).
  apply IH.
Qed.

Lemma gather_case_raise rs : forall m e,
  for_each gather_case rs m = Raise e -> e = AttributeError.
Proof.
  induction rs as [|[c cd] rs IH]; intros m e; cbn [for_each];
    [discriminate|].
  destruct cd as [| | | | | |its]; cbn [gather_case items bind];
    try (now intros [= <-]).
  destruct (for_each gather_iteration its m) as [m1|e1] eqn:H1;
    cbn [bind]; [apply IH|].
  intros [= <-]. now apply (gather_iteration_raise its m).
Qed.

Lemma scene_block_raise add_reduce vs e :
  scene_block add_reduce vs = Raise e ->
  e = OverflowError /\ existsb overflows vs = true.
Proof.
  unfold scene_block, as_float64. cbn [arr_dtype arr_items np_array].
  destruct (match vs with [] => _ | _ => _ end); cbn [bind];
    try discriminate.
  destruct (existsb overflows vs); cbn [bind]; [|discriminate].
  now intros [= <-].
Qed.

Lemma compute_scene_statistics_raise
    (add_reduce : list float -> float) (rs : dict Z pyval) (e : exn) :
  compute_scene_statistics add_reduce rs = Raise e ->
  (e = AttributeError /\ ~ well_shaped rs) \/
  (e = OverflowError /\ well_shaped rs /\
   exists label metric,
     existsb overflows (contributions label metric rs) = true).
Proof.
  { unfold compute_scene_statistics.
    destruct (for_each gather_case rs []) as [m|e1] eqn:Hm; cbn [bind].
    - intros Hr. right.
      assert (Hwf : wf_metrics m)
        by exact (gather_case_wf rs _ _ wf_metrics_nil Hm).
      destruct (scene_stats_raise add_reduce m e Hwf Hr)
        as (label & metric & vs & Hg & Hb).
      apply scene_block_raise in Hb as [-> Hov].
      split; [reflexivity|]. split; [exact (gather_case_shaped rs _ _ Hm)|].
      exists label, metric.
      pose proof (gather_case_values label metric rs _ _ Hm) as Hv.
      cbn [values_at get2 dict_get app] in Hv. rewrite <- Hv.
      unfold values_at. now rewrite Hg.
    - intros [= <-]. left.
      split; [exact (gather_case_raise rs _ _ Hm)|].
      intros Hs. destruct (gather_case_total rs [] Hs) as [m Hm'].
      congruence. }
Qed.

Lemma compute_scene_statistics_ok_shaped
    (add_reduce : list float -> float) (rs : dict Z pyval) (stats : stats_dict) :
  compute_scene_statistics add_reduce rs = Ok stats -> well_shaped rs.
Proof.
  unfold compute_scene_statistics.
  destruct (for_each gather_case rs []) as [m|e] eqn:Hm; cbn [bind];
    [|discriminate].
  intros _. exact (gather_case_shaped rs _ _ Hm).
Qed.

(** X6.  On input of native numbers [compute_scene_statistics] raises
    exactly when some sub-unit is not a mapping of mappings, the exception
    is AttributeError, and on well-shaped input it returns. *)
Theorem compute_scene_statistics_exceptions
    (add_reduce : list float -> float) (rs : dict Z pyval) :
  native_numbers rs ->
  (compute_scene_statistics add_reduce rs = Raise AttributeError <->
   ~ well_shaped rs) /\
  (forall e,
      compute_scene_statistics add_reduce rs = Raise e -> e = AttributeError) /\
  (well_shaped rs ->
   exists stats, compute_scene_statistics add_reduce rs = Ok stats).
Proof.
  intros Hnat.
  assert (Hbad : ~ well_shaped rs ->
                 compute_scene_statistics add_reduce rs = Raise AttributeError).
  { intros Hs. unfold compute_scene_statistics.
    destruct (for_each gather_case rs []) as [m|e1] eqn:Hm; cbn [bind].
    - elim Hs. exact (gather_case_shaped rs _ _ Hm).
    - now rewrite (gather_case_raise rs _ _ Hm). }
  assert (Hexn : forall e,
             compute_scene_statistics add_reduce rs = Raise e ->
             e = AttributeError /\ ~ well_shaped rs).
  { intros e Hr.
    assert (Hs : ~ well_shaped rs).
    { intros Hs.
      destruct (compute_scene_statistics_native add_reduce rs Hs Hnat)
        as [stats Hok].
      congruence. }
    split; [|exact Hs]. specialize (Hbad Hs). congruence. }
  refine (conj (conj _ Hbad) (conj _ _)).
  - intros Hr. exact (proj2 (Hexn _ Hr)).
  - intros e Hr. exact (proj1 (Hexn _ Hr)).
  - intros Hs. exact (compute_scene_statistics_native add_reduce rs Hs Hnat).
Qed.

Lemma native_numbers_list_unit : native_numbers [(0%Z, PList [])].
Proof. intros label metric. reflexivity. Defined.

Lemma compute_scene_statistics_exceptions_witness :
  native_numbers [(0%Z, PList [])] /\
  compute_scene_statistics sequential_sum [(0%Z, PList [])] =
    Raise AttributeError /\
  ~ well_shaped [(0%Z, PList [])].
Proof.
  split; [exact native_numbers_list_unit|].
  split; [reflexivity|].
  exact (proj1 (proj1 (compute_scene_statistics_exceptions sequential_sum
                         [(0%Z, PList [])] native_numbers_list_unit))
               eq_refl).
Defined.

(** ** The aggregator: what a block holds *)

Lemma np_minimum_cases a b : np_minimum a b = a \/ np_minimum a b = b.
Proof. unfold np_minimum. destruct (_ || _); auto. Qed.

Lemma np_maximum_cases a b : np_maximum a b = a \/ np_maximum a b = b.
Proof. unfold np_maximum. destruct (_ || _); auto. Qed.

Lemma fold_left_selects (op : float -> float -> float) :
  (forall a b, op a b = a \/ op a b = b) ->
  forall xs x, In (fold_left op xs x) (x :: xs).
Proof.
  intros Hop. induction xs as [|y xs IH]; intros x; cbn [fold_left].
  - now left.
  - destruct (IH (op x y)) as [H|H]; [|now right; right].
    rewrite <- H.
    destruct (Hop x y) as [E|E]; rewrite E; [now left|now right; left].
Qed.

Lemma np_min_in xs : xs <> [] -> In (np_min xs) xs.
Proof.
  destruct xs as [|x xs]; [congruence|]. intros _.
  apply (fold_left_selects np_minimum np_minimum_cases).
Qed.

Lemma np_max_in xs : xs <> [] -> In (np_max xs) xs.
Proof.
  destruct xs as [|x xs]; [congruence|]. intros _.
  apply (fold_left_selects np_maximum np_maximum_cases).
Qed.

Lemma to_float64_to_int v : to_float64 (to_int v) = to_float64 v.
Proof. now destruct v as [|[|]| | | | |]. Qed.

(** [tolist] keeps the length and the numbers. *)
Lemma tolist_np_array vs :
  List.length (tolist (np_array vs)) = List.length vs /\
  map to_float64 (tolist (np_array vs)) = map to_float64 vs.
Proof.
  unfold tolist. cbn [arr_dtype arr_items np_array].
  destruct (match vs with [] => _ | _ => _ end);
    rewrite ?length_map, ?map_map; split; try reflexivity;
    apply map_ext; intros v; try apply to_float64_to_int; reflexivity.
Qed.

(** X7.  In the statistics of a scene, a block keeps the raw values: as
    many as its count, and as numbers the contributed values in order; its
    min and its max are among them. *)
Theorem scene_block_contents
    (add_reduce : list float -> float) (rs : dict Z pyval)
    (stats : stats_dict) (label metric : string) (blk : stat_block) :
  compute_scene_statistics add_reduce rs = Ok stats ->
  get2 label metric stats = Some blk ->
  let xs := map to_float64 (contributions label metric rs) in
  (exists raw, sb_values blk = Some raw /\
               List.length raw = sb_count blk /\
               map to_float64 raw = xs) /\
  In (sb_min blk) xs /\ In (sb_max blk) xs.
Proof.
  intros Hc Hg xs. subst xs.
  pose proof (compute_scene_statistics_get2 add_reduce rs stats label metric Hc)
    as H.
  destruct (contributions label metric rs) as [|v vs] eqn:Hvs; [congruence|].
  destruct H as (b & Hb & Hb'). rewrite Hb' in Hg. injection Hg as <-.
  apply scene_block_count in Hb
    as (Hn & Hv & ys & Hys & _ & _ & _ & Hmin & Hmax).
  apply as_float64_ok in Hys. subst ys.
  destruct (tolist_np_array (v :: vs)) as [Hlen Hnum].
  split; [|split].
  - exists (tolist (np_array (v :: vs))). now rewrite Hn, Hlen.
  - rewrite Hmin. apply np_min_in. discriminate.
  - rewrite Hmax. apply np_max_in. discriminate.
Qed.

Lemma scene_block_contents_witness :
  compute_scene_statistics sequential_sum mixed_unit =
    Ok [("ours_7000",
         [("PSNR", {| sb_mean := 20; sb_std := 0; sb_min := 20; sb_max := 20;
                      sb_count := 1; sb_values := Some [PFloat 20] |});
          ("flag", {| sb_mean := 1; sb_std := 0; sb_min := 1; sb_max := 1;
                      sb_count := 1; sb_values := Some [PBool true] |})])] /\
  In 1%float (map to_float64 (contributions "ours_7000" "flag" mixed_unit)).
Proof.
  assert (H : compute_scene_statistics sequential_sum mixed_unit =
    Ok [("ours_7000",
         [("PSNR", {| sb_mean := 20; sb_std := 0; sb_min := 20; sb_max := 20;
                      sb_count := 1; sb_values := Some [PFloat 20] |});
          ("flag", {| sb_mean := 1; sb_std := 0; sb_min := 1; sb_max := 1;
                      sb_count := 1; sb_values := Some [PBool true] |})])])
    by (vm_compute; reflexivity).
  split; [exact H|].
  exact (proj1 (proj2 (scene_block_contents sequential_sum mixed_unit _
                         "ours_7000" "flag" _ H eq_refl))).
Defined.

Lemma group_means_in label metric all x :
  In x (group_means label metric all) ->
  exists g gs ms b,
    In (g, gs) all /\ In (label, ms) gs /\ In (metric, b) ms /\
    sb_mean b = x.
Proof.
  unfold group_means, scene_means, block_means. intros Hx.
  apply in_flat_map in Hx as ([g gs] & Hg & Hx). cbn [snd] in Hx.
  apply in_flat_map in Hx as ([it ms] & Hit & Hx). cbn [fst snd] in Hx.
  destruct (String.eqb_spec label it) as [<-|]; [|destruct Hx].
  apply in_flat_map in Hx as ([k b] & Hk & Hx). cbn [fst snd] in Hx.
  destruct (String.eqb_spec metric k) as [<-|]; [|destruct Hx].
  destruct Hx as [<-|[]]. now exists g, gs, ms, b.
Qed.

(** X8.  An overall block keeps no raw values, and its min and its max are
    means of per-scene blocks of the same (label, metric): the extremes of
    the scene means, not of the raw samples. *)
Theorem overall_block_contents
    (add_reduce : list float -> float) (all : dict string stats_dict)
    (label metric : string) (blk : stat_block) :
  get2 label metric (compute_overall_statistics add_reduce all) = Some blk ->
  sb_values blk = None /\
  (exists g gs ms b,
      In (g, gs) all /\ In (label, ms) gs /\ In (metric, b) ms /\
      sb_mean b = sb_min blk) /\
  (exists g gs ms b,
      In (g, gs) all /\ In (label, ms) gs /\ In (metric, b) ms /\
      sb_mean b = sb_max blk).
Proof.
  rewrite compute_overall_statistics_get2.
  destruct (group_means label metric all) as [|x xs] eqn:Hg; [discriminate|].
  intros [= <-]. cbn [sb_values sb_min sb_max overall_block].
  split; [reflexivity|]. rewrite <- Hg.
  split; apply group_means_in; [apply np_min_in|apply np_max_in];
    rewrite Hg; discriminate.
Qed.

Lemma overall_block_contents_witness :
  get2 "ours_7000" "PSNR"
    (compute_overall_statistics sequential_sum
       [("sceneA", [("ours_7000", [("PSNR", overall_block sequential_sum [20%float])])]);
        ("sceneB", [("ours_7000", [("PSNR", overall_block sequential_sum [30%float])])])])
  = Some {| sb_mean := 25; sb_std := 5; sb_min := 20; sb_max := 30;
            sb_count := 2; sb_values := None |} /\
  sb_values {| sb_mean := 25; sb_std := 5; sb_min := 20; sb_max := 30;
               sb_count := 2; sb_values := None |} = None.
Proof.
  assert (H : get2 "ours_7000" "PSNR"
    (compute_overall_statistics sequential_sum
       [("sceneA", [("ours_7000", [("PSNR", overall_block sequential_sum [20%float])])]);
        ("sceneB", [("ours_7000", [("PSNR", overall_block sequential_sum [30%float])])])])
  = Some {| sb_mean := 25; sb_std := 5; sb_min := 20; sb_max := 30;
            sb_count := 2; sb_values := None |})
    by (vm_compute; reflexivity).
  split; [exact H|].
  exact (proj1 (overall_block_contents sequential_sum _ "ours_7000" "PSNR" _ H)).
Defined.

(** ** The aggregator: the shape of the result *)

Section FillShape.
Context {K V W : Type} `{PyKey K} (f : V -> result W).
Variable body : dict K W -> K * V -> result (dict K W).

(** The loop [for k, v in d.items(): acc[k] = f(v)] appends one entry per
    item when the keys are new. *)
Lemma for_each_fill_forall2 d : forall acc out,
  (forall a kv, In kv d ->
     body a kv = (w <- f (snd kv) ;; Ok (dict_set (fst kv) w a))) ->
  NoDup (dict_keys acc ++ dict_keys d) ->
  for_each body d acc = Ok out ->
  exists out',
    out = acc ++ out' /\
    Forall2 (fun kv kw => fst kv = fst kw /\ f (snd kv) = Ok (snd kw)) d out'.
Proof.
  induction d as [|[k0 v0] d IH]; intros acc out Hbody Hnd; cbn [for_each].
  - intros [= <-]. exists []. now rewrite app_nil_r.
  - rewrite (Hbody acc (k0, v0)) by now left. cbn [fst snd].
    destruct (f v0) as [w0|e] eqn:Hf; cbn [bind]; [|discriminate].
    assert (Hfresh : dict_get k0 acc = None).
    { apply dict_get_none. intros Hin.
      change (dict_keys ((k0, v0) :: d)) with (k0 :: dict_keys d) in Hnd.
      apply NoDup_remove_2 in Hnd. apply Hnd, in_or_app. now left. }
    rewrite (dict_set_fresh k0 w0 acc Hfresh). intros Hrest.
    destruct (IH (acc ++ [(k0, w0)]) out) as (out' & -> & HF).
    + intros a kv Hkv. apply Hbody. now right.
    + unfold dict_keys in *. rewrite map_app, <- app_assoc. exact Hnd.
    + exact Hrest.
    + exists ((k0, w0) :: out'). rewrite <- app_assoc. split; [reflexivity|].
      constructor; [now split|exact HF].
Qed.
End FillShape.

Lemma forall2_keys {K V W} (R : V -> W -> Prop)
    (d : dict K V) (out : dict K W) :
  Forall2 (fun kv kw => fst kv = fst kw /\ R (snd kv) (snd kw)) d out ->
  dict_keys out = dict_keys d.
Proof.
  induction 1 as [|[k v] [k' w] d out [Hk _] _ IH]; [reflexivity|].
  unfold dict_keys in *. simpl in *. congruence.
Qed.

Lemma forall2_in_right {A B} (R : A -> B -> Prop) l1 l2 y :
  Forall2 R l1 l2 -> In y l2 -> exists x, In x l1 /\ R x y.
Proof.
  induction 1 as [|a b l1 l2 Hab _ IH]; [intros []|].
  intros [<-|Hy]; [exists a; split; [now left|exact Hab]|].
  destruct (IH Hy) as (x & Hx & HR). exists x. split; [now right|exact HR].
Qed.

Lemma inner_nonempty_append {V} l k (v : V) m :
  inner_nonempty m -> inner_nonempty (append_metric l k v m).
Proof.
  intros Hm label inner Hin. unfold append_metric in Hin.
  apply in_dict_set in Hin as [[_ ->]|Hin]; [apply dict_set_not_nil|].
  now apply (Hm label).
Qed.

Lemma gather_case_inner_nonempty rs : forall m m',
  inner_nonempty m -> for_each gather_case rs m = Ok m' -> inner_nonempty m'.
Proof.
  apply for_each_invariant. intros m [c cd] m' _ Hm.
  destruct cd as [| | | | | |its]; cbn [gather_case items bind];
    try discriminate.
  revert m m' Hm. apply for_each_invariant. intros m [it ms] m' _ Hm.
  destruct ms as [| | | | | |mits]; cbn [gather_iteration items bind];
    try discriminate.
  intros [= <-]. revert m Hm.
  induction mits as [|[k v] mits IH]; intros m Hm; cbn [fold_left];
    [exact Hm|].
  apply IH. unfold gather_metrics.
  destruct (isinstance_int_float v); [now apply inner_nonempty_append|exact Hm].
Qed.

Lemma compute_scene_statistics_nodup
    (add_reduce : list float -> float) (rs : dict Z pyval) (stats : stats_dict) :
  compute_scene_statistics add_reduce rs = Ok stats ->
  NoDup (dict_keys stats) /\
  forall label inner, In (label, inner) stats ->
    inner <> [] /\ NoDup (dict_keys inner).
Proof.
  unfold compute_scene_statistics.
  destruct (for_each gather_case rs []) as [m|e] eqn:Hm; cbn [bind];
    [|discriminate].
  intros Hstats.
  destruct (gather_case_wf rs _ _ wf_metrics_nil Hm) as [Hnd Hwf].
  assert (Hne0 : inner_nonempty (V := list pyval) []) by (intros ? ? []).
  pose proof (gather_case_inner_nonempty rs _ _ Hne0 Hm) as Hne.
  destruct (for_each_fill_forall2
              (fun ms => for_each (scene_metric add_reduce) ms [])
              (scene_iteration add_reduce) m [] stats
              (fun a kv _ => scene_iteration_body add_reduce a kv) Hnd Hstats)
    as (out & -> & HF).
  cbn [app]. split.
  { now rewrite (forall2_keys
                   (fun ms inner =>
                      for_each (scene_metric add_reduce) ms [] = Ok inner)
                   _ _ HF). }
  intros label inner Hin.
  destruct (forall2_in_right _ _ _ _ HF Hin) as ([label' ms] & Hms & Hl & Hinner).
  cbn [fst snd] in Hl, Hinner. subst label'.
  destruct (Hwf _ _ Hms) as [Hnd' Hvs].
  destruct (for_each_fill_forall2 (scene_block add_reduce)
              (scene_metric add_reduce) ms [] inner
              (scene_metric_body add_reduce ms Hvs) Hnd' Hinner)
    as (out' & -> & HF').
  cbn [app].
  rewrite (forall2_keys (fun vs b => scene_block add_reduce vs = Ok b) _ _ HF').
  split; [|exact Hnd'].
  pose proof (Hne _ _ Hms) as Hms_ne.
  inversion HF'; subst; [congruence|discriminate].
Qed.

(** X9.  The statistics of a scene form a dict of non-empty dicts: each
    label appears once, each metric once under its label, and no label is
    left with an empty mapping. *)
Theorem scene_statistics_shape
    (add_reduce : list float -> float) (rs : dict Z pyval) (stats : stats_dict) :
  compute_scene_statistics add_reduce rs = Ok stats ->
  NoDup (dict_keys stats) /\
  forall label inner, In (label, inner) stats ->
    inner <> [] /\ NoDup (dict_keys inner).
Proof. apply compute_scene_statistics_nodup. Qed.

Lemma scene_statistics_shape_witness :
  compute_scene_statistics sequential_sum scene_A_results =
    Ok [("ours_7000",
         [("PSNR", {| sb_mean := 21; sb_std := 1; sb_min := 20; sb_max := 22;
                      sb_count := 2;
                      sb_values := Some [PFloat 20; PFloat 22] |})])] /\
  NoDup (dict_keys
    [("ours_7000",
      [("PSNR", {| sb_mean := 21; sb_std := 1; sb_min := 20; sb_max := 22;
                   sb_count := 2;
                   sb_values := Some [PFloat 20; PFloat 22] |})])]).
Proof.
  assert (H : compute_scene_statistics sequential_sum scene_A_results =
    Ok [("ours_7000",
         [("PSNR", {| sb_mean := 21; sb_std := 1; sb_min := 20; sb_max := 22;
                      sb_count := 2;
                      sb_values := Some [PFloat 20; PFloat 22] |})])])
    by (vm_compute; reflexivity).
  split; [exact H|].
  exact (proj1 (scene_statistics_shape sequential_sum scene_A_results _ H)).
Defined.

(** ** From the collection to the overall statistics *)

Lemma scene_stats_step_body add_reduce a (kv : string * dict Z pyval) :
  scene_stats_step add_reduce a kv =
  (w <- compute_scene_statistics add_reduce (snd kv) ;;
   Ok (dict_set (fst kv) w a)).
Proof. now destruct kv. Qed.

Lemma scene_stats_forall2 add_reduce (coll : collection) scene_stats :
  NoDup (dict_keys coll) ->
  for_each (scene_stats_step add_reduce) coll [] = Ok scene_stats ->
  Forall2 (fun kv kw => fst kv = fst kw /\
                        compute_scene_statistics add_reduce (snd kv) = Ok (snd kw))
          coll scene_stats.
Proof.
  intros Hnd Hs.
  destruct (for_each_fill_forall2 (compute_scene_statistics add_reduce)
              (scene_stats_step add_reduce) coll [] scene_stats
              (fun a kv _ => scene_stats_step_body add_reduce a kv) Hnd Hs)
    as (out & -> & HF).
  exact HF.
Qed.

Lemma group_means_of_collection add_reduce label metric
    (coll : collection) scene_stats :
  Forall2 (fun kv kw => fst kv = fst kw /\
                        compute_scene_statistics add_reduce (snd kv) = Ok (snd kw))
          coll scene_stats ->
  List.length (group_means label metric scene_stats) =
  List.length (contributing_groups label metric coll).
Proof.
  unfold group_means, contributing_groups.
  induction 1 as [|[g cases] [g' st] coll ss [_ Hc] _ IH]; [reflexivity|].
  cbn [fst snd] in Hc. cbn [flat_map filter snd]. rewrite length_app, IH.
  destruct (compute_scene_statistics_nodup add_reduce cases st Hc) as [Hnd Hin].
  rewrite (scene_means_get2 label metric st Hnd
             (fun it ms H => proj2 (Hin it ms H))).
  pose proof (compute_scene_statistics_get2 add_reduce cases st label metric Hc)
    as Hg.
  destruct (contributions label metric cases) as [|v vs].
  - now rewrite Hg.
  - destruct Hg as (b & _ & ->). reflexivity.
Qed.

(** X10.  When [main] computes the statistics of every scene of the
    collection and then the overall statistics, the scenes keep the keys
    and the order of the collection, and the overall count of a (label,
    metric) pair is the number of groups in which some sub-unit contributes
    a value to that pair; with no such group the pair is absent. *)
Theorem overall_count_counts_contributing_groups
    (add_reduce : list float -> float) (coll : collection)
    (scene_stats : dict string stats_dict) (label metric : string) :
  NoDup (dict_keys coll) ->
  for_each (scene_stats_step add_reduce) coll [] = Ok scene_stats ->
  dict_keys scene_stats = dict_keys coll /\
  match get2 label metric (compute_overall_statistics add_reduce scene_stats) with
  | Some blk =>
      sb_count blk = List.length (contributing_groups label metric coll)
  | None => contributing_groups label metric coll = []
  end.
Proof.
  intros Hnd Hs.
  pose proof (scene_stats_forall2 add_reduce coll scene_stats Hnd Hs) as HF.
  split.
  { exact (forall2_keys
             (fun cases st => compute_scene_statistics add_reduce cases = Ok st)
             _ _ HF). }
  pose proof (group_means_of_collection add_reduce label metric _ _ HF) as Hlen.
  rewrite compute_overall_statistics_get2.
  destruct (group_means label metric scene_stats) as [|x xs].
  - symmetry in Hlen. now apply length_zero_iff_nil in Hlen.
  - exact Hlen.
Qed.

Lemma overall_count_counts_contributing_groups_witness :
  NoDup (dict_keys (fst (collect_all_results scenario_B))) /\
  for_each (scene_stats_step sequential_sum)
           (fst (collect_all_results scenario_B)) [] =
    Ok [("sceneA",
         [("ours_7000",
           [("PSNR", {| sb_mean := 20; sb_std := 0; sb_min := 20; sb_max := 20;
                        sb_count := 1; sb_values := Some [PFloat 20] |})])]);
        ("sceneB",
         [("ours_7000",
           [("PSNR", {| sb_mean := 30; sb_std := 0; sb_min := 30; sb_max := 30;
                        sb_count := 1; sb_values := Some [PFloat 30] |})])])] /\
  dict_keys
    [("sceneA",
      [("ours_7000",
        [("PSNR", {| sb_mean := 20; sb_std := 0; sb_min := 20; sb_max := 20;
                     sb_count := 1; sb_values := Some [PFloat 20] |})])]);
     ("sceneB",
      [("ours_7000",
        [("PSNR", {| sb_mean := 30; sb_std := 0; sb_min := 30; sb_max := 30;
                     sb_count := 1; sb_values := Some [PFloat 30] |})])])] =
  dict_keys (fst (collect_all_results scenario_B)).
Proof.
  assert (Hnd : NoDup (dict_keys (fst (collect_all_results scenario_B))))
    by (vm_compute; repeat constructor; simpl; intuition discriminate).
  assert (Hs : for_each (scene_stats_step sequential_sum)
                 (fst (collect_all_results scenario_B)) [] =
    Ok [("sceneA",
         [("ours_7000",
           [("PSNR", {| sb_mean := 20; sb_std := 0; sb_min := 20; sb_max := 20;
                        sb_count := 1; sb_values := Some [PFloat 20] |})])]);
        ("sceneB",
         [("ours_7000",
           [("PSNR", {| sb_mean := 30; sb_std := 0; sb_min := 30; sb_max := 30;
                        sb_count := 1; sb_values := Some [PFloat 30] |})])])])
    by (vm_compute; reflexivity).
  split; [exact Hnd|]. split; [exact Hs|].
  exact (proj1 (overall_count_counts_contributing_groups sequential_sum _ _
                  "ours_7000" "PSNR" Hnd Hs)).
Defined.

(** ** [main]: what is written and what is created *)

Ltac main_branches Hmk Hdir Hcol Hst :=
  unfold main;
  destruct (mkdir_parents_exist_ok _ _) as [?fs1|?e] eqn:Hmk;
  [ destruct (is_dir _ _) eqn:Hdir; cbn [negb];
    [ destruct (collect_all_results _) as [[|?kv ?all] ?out] eqn:Hcol;
      [ | destruct (for_each _ _ _) as [?scene_stats|?e] eqn:Hst;
          [ destruct (existsb (format_eqb Json) _) eqn:?Hjson;
            destruct (existsb (format_eqb Csv) _) eqn:?Hcsv;
            repeat match goal with
                   | |- context [open_for_writing ?p ?f] =>
                       destruct (open_for_writing p f) as [[]|?e];
                       cbn [bind]
                   end
          | ] ]
    | ]
  | ].

Lemma main_fs_after add_reduce readdir args fs :
  fs_after (main add_reduce readdir args fs) =
  match mkdir_parents_exist_ok
          (match arg_output_dir args with
           | Some p => p
           | None => arg_results_dir args
           end) fs with
  | Ok fs1 => fs1
  | Raise _ => fs
  end.
Proof. main_branches Hmk Hdir Hcol Hst; reflexivity. Qed.

Lemma dict_set_same_value {K V} `{PyKey K} (k : K) (v : V) (d : dict K V) :
  dict_get k d = Some v -> dict_set k v d = d.
Proof.
  induction d as [|[k' v'] d IH]; cbn [dict_get dict_set]; [discriminate|].
  destruct (key_eqb k k'); [now intros [= ->]|].
  intros Hg. now rewrite IH.
Qed.

(** [mkdir] of a directory that exists changes nothing. *)
Lemma mkdir_existing p : forall fs,
  is_dir p fs = true -> mkdir_parents_exist_ok p fs = Ok fs.
Proof.
  unfold is_dir.
  induction p as [|c p IH]; intros fs; cbn [lookup_path mkdir_parents_exist_ok].
  - now destruct fs.
  - destruct fs as [f|es]; [discriminate|].
    destruct (dict_get c es) as [child|] eqn:Hg; [|discriminate].
    intros Hd. rewrite (IH child Hd). cbn [bind].
    now rewrite (dict_set_same_value c child es Hg).
Qed.

(** X11.  A run creates no directory but the output directory: when that
    directory exists [mkdir] leaves the directory tree as it was, in a run
    that no exception ended it exists afterwards, and repeating the run on
    the tree that [mkdir] left creates no further directory. *)
Theorem main_creates_only_the_output_directory
    (add_reduce : list float -> float)
    (readdir : list (string * node) -> list (string * node))
    (args : arguments) (fs : node) :
  let output_dir :=
    match arg_output_dir args with
    | Some p => p
    | None => arg_results_dir args
    end in
  let o := main add_reduce readdir args fs in
  (is_dir output_dir fs = true -> fs_after o = fs) /\
  (uncaught o = None -> is_dir output_dir (fs_after o) = true) /\
  fs_after (main add_reduce readdir args (fs_after o)) = fs_after o.
Proof.
  intros output_dir o. subst o. rewrite !main_fs_after. fold output_dir.
  split; [|split].
  - intros Hd. now rewrite (mkdir_existing _ _ Hd).
  - destruct (mkdir_parents_exist_ok output_dir fs) as [fs1|e] eqn:Hmk.
    + intros _. exact (mkdir_is_dir _ _ _ Hmk).
    + unfold main. fold output_dir. rewrite Hmk. discriminate.
  - destruct (mkdir_parents_exist_ok output_dir fs) as [fs1|e] eqn:Hmk.
    + now rewrite (mkdir_existing _ _ (mkdir_is_dir _ _ _ Hmk)).
    + now rewrite Hmk.
Qed.

Lemma scene_stats_step_ok add_reduce (coll : collection) : forall acc out,
  for_each (scene_stats_step add_reduce) coll acc = Ok out ->
  forall kv, In kv coll -> well_shaped (snd kv).
Proof.
  induction coll as [|[g cases] coll IH]; intros acc out; cbn [for_each].
  - intros _ kv [].
  - cbn [scene_stats_step].
    destruct (compute_scene_statistics add_reduce cases) as [st|e] eqn:Hc;
      cbn [bind]; [|discriminate].
    intros Hrest kv [<-|Hkv]; [|exact (IH _ _ Hrest kv Hkv)].
    exact (compute_scene_statistics_ok_shaped add_reduce cases st Hc).
Qed.

Lemma scene_stats_step_raise add_reduce (coll : collection) : forall acc e,
  for_each (scene_stats_step add_reduce) coll acc = Raise e ->
  e = AttributeError \/ e = OverflowError.
Proof.
  intros acc e Hr.
  destruct (for_each_fill_raise (compute_scene_statistics add_reduce)
              (scene_stats_step add_reduce) coll acc e
              (fun a kv _ => scene_stats_step_body add_reduce a kv) Hr)
    as (kv & _ & Hkv).
  destruct (compute_scene_statistics_raise add_reduce _ _ Hkv)
    as [[-> _]|[-> _]]; auto.
Qed.

(** X12.  When one collected sub-unit is not a mapping of mappings the run
    ends with an uncaught AttributeError or OverflowError, exit status 1,
    before any output file is written. *)
Theorem malformed_unit_aborts_the_run
    (add_reduce : list float -> float)
    (readdir : list (string * node) -> list (string * node))
    (args : arguments) (fs fs1 : node) (g : string) (cases : dict Z pyval) :
  mkdir_parents_exist_ok
    (match arg_output_dir args with
     | Some p => p
     | None => arg_results_dir args
     end) fs = Ok fs1 ->
  is_dir (arg_results_dir args) fs1 = true ->
  In (g, cases)
     (fst (collect_all_results (iterdir readdir (arg_results_dir args) fs1))) ->
  ~ well_shaped cases ->
  let o := main add_reduce readdir args fs in
  (uncaught o = Some AttributeError \/ uncaught o = Some OverflowError) /\
  exit_status o = 1%Z /\ written o = [].
Proof.
  intros Hmk Hdir Hin Hbad o. subst o.
  unfold main. rewrite Hmk, Hdir. cbn [negb].
  destruct (collect_all_results (iterdir readdir (arg_results_dir args) fs1))
    as [coll out] eqn:Hcol.
  cbn [fst] in Hin. destruct coll as [|kv all]; [destruct Hin|].
  destruct (for_each (scene_stats_step add_reduce) (kv :: all) [])
    as [scene_stats|e] eqn:Hst.
  - elim Hbad.
    exact (scene_stats_step_ok add_reduce _ _ _ Hst (g, cases) Hin).
  - cbn [uncaught exit_status written crashed].
    destruct (scene_stats_step_raise add_reduce _ _ _ Hst) as [-> | ->]; auto.
Qed.

Lemma malformed_unit_aborts_the_run_witness :
  mkdir_parents_exist_ok ["out"] fs_malformed = Ok fs_malformed /\
  is_dir ["out"] fs_malformed = true /\
  In ("a", [(0%Z, PList [])])
     (fst (collect_all_results (iterdir plain_order ["out"] fs_malformed))) /\
  written (main sequential_sum plain_order (both_formats ["out"] None)
                fs_malformed) = [].
Proof.
  assert (Hin : In ("a", [(0%Z, PList [])])
     (fst (collect_all_results (iterdir plain_order ["out"] fs_malformed))))
    by (left; reflexivity).
  assert (Hbad : ~ well_shaped [(0%Z, PList [])]).
  { intros H. destruct (H (0%Z, PList []) (or_introl eq_refl))
      as (its & Heq & _). discriminate Heq. }
  split; [reflexivity|]. split; [reflexivity|]. split; [exact Hin|].
  exact (proj2 (proj2 (malformed_unit_aborts_the_run sequential_sum plain_order
                         (both_formats ["out"] None) fs_malformed fs_malformed
                         "a" [(0%Z, PList [])] eq_refl eq_refl Hin Hbad))).
Defined.

Lemma main_document add_reduce readdir args fs p s :
  In (p, JsonDocument s) (written (main add_reduce readdir args fs)) ->
  exists fs1 coll out scene_stats,
    mkdir_parents_exist_ok
      (match arg_output_dir args with
       | Some q => q
       | None => arg_results_dir args
       end) fs = Ok fs1 /\
    collect_all_results (iterdir readdir (arg_results_dir args) fs1) =
      (coll, out) /\
    coll <> [] /\
    for_each (scene_stats_step add_reduce) coll [] = Ok scene_stats /\
    s = {| sum_metadata :=
             {| results_directory := path_str (arg_results_dir args);
                num_scenes := List.length coll;
                num_cases :=
                  fold_left (fun n (kv : string * dict Z pyval) =>
                               (n + List.length (snd kv))%nat) coll 0%nat;
                scene_list := sorted String.ltb (dict_keys coll);
                note := the_note |};
           overall_statistics := compute_overall_statistics add_reduce scene_stats;
           per_scene_statistics := scene_stats |}.
Proof.
  unfold main.
  destruct (mkdir_parents_exist_ok _ fs) as [fs1|e] eqn:Hmk; [|intros []].
  destruct (is_dir (arg_results_dir args) fs1); cbn [negb]; [|intros []].
  destruct (collect_all_results (iterdir readdir (arg_results_dir args) fs1))
    as [[|kv all] out] eqn:Hcol; [intros []|].
  destruct (for_each (scene_stats_step add_reduce) (kv :: all) [])
    as [scene_stats|e] eqn:Hst; [|intros []].
  intros Hin. exists fs1, (kv :: all), out, scene_stats.
  split; [first [reflexivity|exact Hmk]|].
  split; [first [reflexivity|exact Hcol]|]. split; [discriminate|].
  split; [first [reflexivity|exact Hst]|].
  destruct (existsb (format_eqb Json) (arg_formats args));
    destruct (existsb (format_eqb Csv) (arg_formats args));
    repeat match type of Hin with
           | context [open_for_writing ?q ?f] =>
               destruct (open_for_writing q f) as [[]|?e]; cbn [bind] in Hin
           end;
    cbn [written exited crashed app In] in Hin;
    repeat match type of Hin with
           | _ \/ _ => destruct Hin as [Hin|Hin]
           | False => destruct Hin
           end;
    try discriminate Hin; now injection Hin as _ <-.
Qed.

Lemma num_cases_is_total (coll : collection) : forall n,
  fold_left (fun n (kv : string * dict Z pyval) => (n + List.length (snd kv))%nat)
            coll n =
  (n + List.length (flat_map snd coll))%nat.
Proof.
  induction coll as [|kv coll IH]; intros n; cbn [fold_left flat_map].
  - cbn [List.length]. lia.
  - rewrite IH, length_app. lia.
Qed.

Lemma groups_at_most_units (coll : collection) :
  (forall g cases, In (g, cases) coll -> cases <> []) ->
  (List.length coll <= List.length (flat_map snd coll))%nat.
Proof.
  induction coll as [|[g cases] coll IH]; intros Hne; cbn [flat_map snd];
    [reflexivity|].
  rewrite length_app. cbn [List.length].
  assert (cases <> []) by (apply (Hne g); now left).
  assert (List.length coll <= List.length (flat_map snd coll))%nat
    by (apply IH; intros g' c' Hin; apply (Hne g'); now right).
  destruct cases; [congruence|]. cbn [List.length]. lia.
Qed.

(** X13.  The summary that is written is consistent with the collection:
    [num_scenes] is its number of groups and [num_cases] its number of
    sub-units, with 1 <= num_scenes <= num_cases; [scene_list] is the list
    of its group keys, sorted and without repetition; the per-scene
    statistics have its keys in its order. *)
Theorem summary_is_consistent
    (add_reduce : list float -> float)
    (readdir : list (string * node) -> list (string * node))
    (args : arguments) (fs : node) (p : path) (s : summary) :
  In (p, JsonDocument s) (written (main add_reduce readdir args fs)) ->
  let coll :=
    fst (collect_all_results
           (iterdir readdir (arg_results_dir args)
                    (fs_after (main add_reduce readdir args fs)))) in
  let meta := sum_metadata s in
  num_scenes meta = List.length coll /\
  num_cases meta = List.length (flat_map snd coll) /\
  (1 <= num_scenes meta <= num_cases meta)%nat /\
  Permutation (scene_list meta) (dict_keys coll) /\
  NoDup (scene_list meta) /\
  StronglySorted (fun a b => String.ltb b a = false) (scene_list meta) /\
  dict_keys (per_scene_statistics s) = dict_keys coll.
Proof.
  intros Hin coll meta.
  destruct (main_document _ _ _ _ _ _ Hin)
    as (fs1 & coll' & out & scene_stats & Hmk & Hcol & Hne & Hst & ->).
  subst coll meta. rewrite main_fs_after, Hmk, Hcol.
  cbn [fst sum_metadata num_scenes num_cases scene_list per_scene_statistics].
  pose proof (collect_all_results_wf
                (iterdir readdir (arg_results_dir args) fs1)) as [Hnd Hgroups].
  rewrite Hcol in Hnd, Hgroups. cbn [fst] in Hnd, Hgroups.
  rewrite num_cases_is_total. cbn [Nat.add].
  pose proof (sorted_perm (fun k : string => k) String.ltb (dict_keys coll'))
    as Hperm.
  split; [reflexivity|]. split; [reflexivity|]. split; [|split; [|split; [|split]]].
  - split.
    + destruct coll'; [congruence|]. cbn [List.length]. lia.
    + apply groups_at_most_units. intros g cases Hg. now apply (Hgroups g).
  - exact Hperm.
  - apply (Permutation_NoDup (Permutation_sym Hperm) Hnd).
  - apply (sorted_strongly (fun k : string => k) String.ltb
             string_ltb_trans string_ltb_total string_ltb_irrefl).
  - exact (forall2_keys
             (fun cases st => compute_scene_statistics add_reduce cases = Ok st)
             _ _ (scene_stats_forall2 add_reduce coll' scene_stats Hnd Hst)).
Qed.

Lemma summary_is_consistent_witness :
  In (["out"; "aggregate_results.json"], JsonDocument scenario_B_summary)
     (written (main sequential_sum plain_order (both_formats ["out"] None)
                    fs_scenario_B)) /\
  num_scenes (sum_metadata scenario_B_summary) = 2%nat.
Proof.
  assert (Hin : In (["out"; "aggregate_results.json"],
                    JsonDocument scenario_B_summary)
     (written (main sequential_sum plain_order (both_formats ["out"] None)
                    fs_scenario_B)))
    by (vm_compute; left; reflexivity).
  split; [exact Hin|].
  exact (proj1 (summary_is_consistent sequential_sum plain_order
                  (both_formats ["out"] None) fs_scenario_B _ _ Hin)).
Defined.

(** ** The report renderer *)

Lemma sorted_key_lt_perm {V} (d : dict string V) :
  Permutation (sorted key_lt d) d.
Proof. exact (sorted_perm fst String.ltb d). Qed.

Lemma sorted_key_lt_strongly {V} (d : dict string V) :
  StronglySorted (fun a b : string * V => String.ltb (fst b) (fst a) = false)
                 (sorted key_lt d).
Proof.
  exact (sorted_strongly fst String.ltb string_ltb_trans string_ltb_total
           string_ltb_irrefl d).
Qed.

Lemma csv_rows_eq overall_stats :
  csv_rows overall_stats =
  flat_map (fun it : string * dict string stat_block =>
              map (fun m : string * stat_block =>
                     csv_row_of (fst it) (fst m) (snd m))
                  (sorted key_lt (snd it)))
           (sorted key_lt overall_stats).
Proof. reflexivity. Qed.

Lemma csv_rows_in overall_stats r :
  In r (csv_rows overall_stats) <->
  exists it inner metric blk,
    In (it, inner) overall_stats /\ In (metric, blk) inner /\
    r = csv_row_of it metric blk.
Proof.
  rewrite csv_rows_eq, in_flat_map. split.
  - intros ([it inner] & Hit & Hr). cbn [fst snd] in Hr.
    apply in_map_iff in Hr as ([metric blk] & <- & Hm).
    apply (Permutation_in _ (sorted_key_lt_perm _)) in Hit, Hm.
    now exists it, inner, metric, blk.
  - intros (it & inner & metric & blk & Hit & Hm & ->).
    exists (it, inner). split.
    + apply (Permutation_in _ (Permutation_sym (sorted_key_lt_perm _))), Hit.
    + cbn [fst snd]. apply in_map_iff. exists (metric, blk).
      split; [reflexivity|].
      apply (Permutation_in _ (Permutation_sym (sorted_key_lt_perm _))), Hm.
Qed.

Lemma csv_rows_length overall_stats :
  List.length (csv_rows overall_stats) =
  List.length (flat_map snd overall_stats).
Proof.
  rewrite csv_rows_eq.
  rewrite <- (Permutation_length
                (Permutation_flat_map snd (sorted_key_lt_perm overall_stats))).
  induction (sorted key_lt overall_stats) as [|it l IH]; [reflexivity|].
  cbn [flat_map]. rewrite !length_app, IH, length_map.
  now rewrite (Permutation_length (sorted_key_lt_perm (snd it))).
Qed.

Lemma strongly_sorted_app {A} (R : A -> A -> Prop) l1 l2 :
  StronglySorted R l1 -> StronglySorted R l2 ->
  (forall x y, In x l1 -> In y l2 -> R x y) ->
  StronglySorted R (l1 ++ l2).
Proof.
  induction 1 as [|a l1 Hl1 IH Ha]; intros H2 Hcross; [exact H2|].
  cbn [app]. constructor.
  - apply IH; [exact H2|]. intros x y Hx Hy. apply Hcross; [now right|exact Hy].
  - apply Forall_app. split; [exact Ha|].
    apply Forall_forall. intros y Hy. apply Hcross; [now left|exact Hy].
Qed.

Lemma strongly_sorted_map {A B} (f : A -> B) (R : A -> A -> Prop)
    (S : B -> B -> Prop) l :
  (forall x y, R x y -> S (f x) (f y)) ->
  StronglySorted R l -> StronglySorted S (map f l).
Proof.
  intros HRS. induction 1 as [|a l Hl IH Ha]; cbn [map]; constructor;
    [exact IH|].
  apply Forall_forall. intros y Hy. apply in_map_iff in Hy as (x & <- & Hx).
  rewrite Forall_forall in Ha. now apply HRS, Ha.
Qed.

Lemma csv_rows_sorted overall_stats :
  NoDup (dict_keys overall_stats) -> StronglySorted row_le (csv_rows overall_stats).
Proof.
  intros Hnd. rewrite csv_rows_eq.
  assert (Hnd' : NoDup (map fst (sorted key_lt overall_stats))).
  { apply (Permutation_NoDup (l := map fst overall_stats)); [|exact Hnd].
    apply Permutation_map, Permutation_sym, sorted_key_lt_perm. }
  pose proof (sorted_key_lt_strongly overall_stats) as Hs.
  induction Hs as [|it l Hl IH Hit]; [constructor|].
  cbn [flat_map]. cbn [map] in Hnd'.
  apply NoDup_cons_iff in Hnd' as [Hnotin Hnd'].
  apply strongly_sorted_app; [|now apply IH|].
  - apply (strongly_sorted_map _
             (fun a b : string * stat_block => String.ltb (fst b) (fst a) = false));
      [|apply sorted_key_lt_strongly].
    intros x y Hxy. unfold row_le, csv_row_of. simpl.
    split; [apply string_ltb_irrefl|intros _; exact Hxy].
  - intros x y Hx Hy.
    apply in_map_iff in Hx as (m & <- & _).
    apply in_flat_map in Hy as (it' & Hit' & Hy).
    apply in_map_iff in Hy as (m' & <- & _).
    rewrite Forall_forall in Hit. unfold row_le, csv_row_of. simpl.
    split; [exact (Hit it' Hit')|].
    intros Heq. elim Hnotin. rewrite Heq. now apply in_map.
Qed.

(** X14.  The CSV table has exactly one row for each (label, metric) block
    of the overall statistics, carrying its five statistics, and, for a
    dict with unique labels, the rows are ordered by label and then by
    metric name. *)
Theorem csv_has_one_row_per_block (overall_stats : stats_dict) :
  NoDup (dict_keys overall_stats) ->
  (forall r,
      In r (csv_rows overall_stats) <->
      exists it inner metric blk,
        In (it, inner) overall_stats /\ In (metric, blk) inner /\
        r = csv_row_of it metric blk) /\
  List.length (csv_rows overall_stats) =
    List.length (flat_map snd overall_stats) /\
  StronglySorted row_le (csv_rows overall_stats).
Proof.
  intros Hnd. split; [intros r; apply csv_rows_in|].
  split; [apply csv_rows_length|now apply csv_rows_sorted].
Qed.

Lemma csv_has_one_row_per_block_witness :
  NoDup (dict_keys stats_with_extra_metric) /\
  List.length (csv_rows stats_with_extra_metric) = 3%nat /\
  map row_metric (csv_rows stats_with_extra_metric) = ["PSNR"; "SSIM"; "depth"].
Proof.
  assert (Hnd : NoDup (dict_keys stats_with_extra_metric))
    by (repeat constructor; simpl; tauto).
  split; [exact Hnd|]. split; [|reflexivity].
  exact (proj1 (proj2 (csv_has_one_row_per_block stats_with_extra_metric Hnd))).
Defined.

Lemma table_rows_in metrics m blk :
  In (m, blk) (table_rows metrics) <->
  In m known_metrics /\ dict_get m metrics = Some blk.
Proof.
  unfold table_rows. rewrite in_flat_map. split.
  - intros (k & Hk & Hin).
    destruct (dict_get k metrics) as [b|] eqn:Hg; [|destruct Hin].
    destruct Hin as [[= <- <-]|[]]. now split.
  - intros [Hm Hg]. exists m. split; [exact Hm|]. rewrite Hg. now left.
Qed.

Lemma table_rows_order metrics :
  map fst (table_rows metrics) =
  filter (fun m => match dict_get m metrics with
                   | Some _ => true
                   | None => false
                   end)
         known_metrics.
Proof.
  unfold table_rows.
  induction known_metrics as [|k ks IH]; [reflexivity|].
  cbn [flat_map filter]. rewrite map_app, IH.
  now destruct (dict_get k metrics).
Qed.

(** X15.  The console table lists the iteration names in sorted order and,
    under each, only the metrics PSNR, SSIM and LPIPS that the iteration
    has, in that order; any other metric is left out of the table, though
    it has its row in the CSV. *)
Theorem console_table_shows_known_metrics
    (overall_stats : stats_dict) (it : string)
    (rows : list (string * stat_block)) :
  In (it, rows) (print_results_table overall_stats) ->
  map fst (print_results_table overall_stats) =
    sorted String.ltb (dict_keys overall_stats) /\
  (forall m blk,
      In (m, blk) rows <->
      In m known_metrics /\ get2 it m overall_stats = Some blk) /\
  (exists shown, map fst rows = filter shown known_metrics) /\
  (forall inner m blk,
      In (it, inner) overall_stats -> In (m, blk) inner ->
      In (csv_row_of it m blk) (csv_rows overall_stats)).
Proof.
  unfold print_results_table. intros Hin.
  apply in_map_iff in Hin as (k & [= <- <-] & Hk).
  split; [|split; [|split]].
  - rewrite map_map. cbn [fst]. apply map_id.
  - intros m blk. rewrite table_rows_in. unfold get2.
    apply (Permutation_in _ (sorted_perm (fun x : string => x) String.ltb _))
      in Hk.
    destruct (dict_get k overall_stats) as [metrics|] eqn:Hg; [reflexivity|].
    apply dict_get_none in Hg. now elim Hg.
  - eexists. apply table_rows_order.
  - intros inner m blk Hi Hm. apply csv_rows_in. now exists k, inner, m, blk.
Qed.

Lemma console_table_shows_known_metrics_witness :
  In ("ours_7000",
      [("PSNR", overall_block sequential_sum [20%float]);
       ("SSIM", overall_block sequential_sum [1%float])])
     (print_results_table stats_with_extra_metric) /\
  map fst (print_results_table stats_with_extra_metric) =
    sorted String.ltb (dict_keys stats_with_extra_metric).
Proof.
  assert (Hin : In ("ours_7000",
      [("PSNR", overall_block sequential_sum [20%float]);
       ("SSIM", overall_block sequential_sum [1%float])])
     (print_results_table stats_with_extra_metric))
    by (left; reflexivity).
  split; [exact Hin|].
  exact (proj1 (console_table_shows_known_metrics stats_with_extra_metric
                  _ _ Hin)).
Defined.

(** X16.  A run writes only the formats that were asked for, each under its
    fixed name in the output directory, and a run that ends with status 0
    has written all of them, the JSON document before the CSV table. *)
Theorem requested_formats_are_written
    (add_reduce : list float -> float)
    (readdir : list (string * node) -> list (string * node))
    (args : arguments) (fs : node) :
  let output_dir :=
    match arg_output_dir args with
    | Some p => p
    | None => arg_results_dir args
    end in
  let want_json := existsb (format_eqb Json) (arg_formats args) in
  let want_csv := existsb (format_eqb Csv) (arg_formats args) in
  let o := main add_reduce readdir args fs in
  (forall p a,
      In (p, a) (written o) ->
      match a with
      | JsonDocument _ =>
          want_json = true /\ p = output_dir ++ ["aggregate_results.json"]
      | CsvTable _ =>
          want_csv = true /\ p = output_dir ++ ["aggregate_results.csv"]
      end) /\
  (exit_status o = 0%Z ->
   map fst (written o) =
     (if want_json then [output_dir ++ ["aggregate_results.json"]] else []) ++
     (if want_csv then [output_dir ++ ["aggregate_results.csv"]] else [])).
Proof.
  intros output_dir want_json want_csv o.
  subst o want_json want_csv output_dir.
  main_branches Hmk Hdir Hcol Hst;
    cbn [written exited crashed exit_status app map fst];
    (split;
     [ intros p a Hin;
       repeat match type of Hin with
              | In _ (_ :: _) => destruct Hin as [Hin|Hin]
              | In _ [] => destruct Hin
              | False => destruct Hin
              end;
       injection Hin as <- <-; now split
     | first [ discriminate | reflexivity ] ]).
Qed.

Lemma collect_fold_found dirs : forall st,
  exists rest,
    printed (fold_left collect_step dirs st) = printed st ++ rest.
Proof.
  induction dirs as [|d dirs IH]; intros st; cbn [fold_left].
  - exists []. now rewrite app_nil_r.
  - destruct (IH (collect_step st d)) as [rest ->].
    assert (Hstep : exists r, printed (collect_step st d) = printed st ++ r).
    { unfold collect_step. destruct d as [name n].
      destruct (extract_scene_and_case name) as [[g c]|];
        [|exists []; now rewrite app_nil_r].
      destruct (dict_get "results.json" (entries_of n)) as [f|];
        [|now eexists].
      destruct (load_results_json f) as [v [|]]; destruct (is_None v);
        cbn [printed]; solve [now eexists | exists []; now rewrite app_nil_r]. }
    destruct Hstep as [r ->]. exists (r ++ rest). now rewrite app_assoc.
Qed.

(** X17.  The first line the locator prints counts the child directories
    whose name contains the delimiter, whether or not their suffix parses
    and whether or not they hold a [results.json]. *)
Theorem found_counts_delimiter_directories (listing : list (string * node)) :
  exists rest,
    snd (collect_all_results listing) =
    FoundDirs
      (List.length
         (filter (fun d => node_is_dir (snd d) && PyStr.contains "_case" (fst d))
                 listing))
    :: rest.
Proof.
  unfold collect_all_results. cbn [snd].
  set (st0 := {| all_results := []; missing_count := 0;
                 printed := [FoundDirs (List.length (scene_case_dirs listing))] |}).
  destruct (collect_fold_found (scene_case_dirs listing) st0) as [rest Hp].
  assert (Hlen : List.length (scene_case_dirs listing) =
                 List.length
                   (filter (fun d => node_is_dir (snd d) &&
                                     PyStr.contains "_case" (fst d)) listing))
    by (apply Permutation_length, (sorted_perm fst String.ltb)).
  rewrite Hp. cbn [printed st0 app]. rewrite Hlen.
  destruct (0 <? _)%nat; eexists; reflexivity.
Qed.
